(** * Tic-tac-toe social arena: the offline game engine and the connection
      manager, embedded from [src/context/GameContext.tsx],
      [src/services/socketService.ts] and [src/pages/Index.tsx]. *)

From stdpp Require Import base list strings pretty.
From Stdlib Require Import Lia.

Set Default Proof Using "Type".
Open Scope string_scope.

(** ** JavaScript values held by the board *)

(** [currentTurn: "X" | "O"]. *)
Inductive Mark := MarkX | MarkO.

Definition mark_str (m : Mark) : string :=
  match m with MarkX => "X" | MarkO => "O" end.

(** [gameState.currentTurn === "X" ? "O" : "X"]. *)
Definition other (m : Mark) : Mark :=
  match m with MarkX => MarkO | MarkO => MarkX end.

(** A board cell has type [string | null]; reading an array past its end,
    or a slot that an out-of-range write skipped, gives [undefined].  A hole
    and a stored [undefined] behave alike under every operation used here
    (index read, spread, [every] with [cell !== null]). *)
Inductive cell := Null | Undefined | Str (s : string).

Global Instance cell_eq_dec : EqDecision cell.
Proof. solve_decision. Defined.

Global Instance Mark_eq_dec : EqDecision Mark.
Proof. solve_decision. Defined.

(** JavaScript truthiness of a cell: only a non-empty string is truthy. *)
Definition truthy (c : cell) : bool :=
  match c with
  | Str s => negb (String.eqb s "")
  | _ => false
  end.

(** [a === b] on cells. *)
Definition strict_eq (a b : cell) : bool := bool_decide (a = b).

(** [cell !== null]. *)
Definition not_null (c : cell) : bool :=
  match c with Null => false | _ => true end.

(** JavaScript truthiness of a [string | null] value. *)
Definition truthy_name (o : option string) : bool :=
  match o with
  | Some s => negb (String.eqb s "")
  | None => false
  end.

(** [arr[i]]. *)
Definition get (arr : list cell) (i : nat) : cell := default Undefined (arr !! i).

(** [arr[i] = v] on a copy: inside the array the slot is replaced, past its
    end the array grows and the skipped slots read as [undefined]. *)
Definition js_set (arr : list cell) (i : nat) (v : cell) : list cell :=
  if decide (i < length arr) then <[i:=v]> arr
  else arr ++ replicate (i - length arr) Undefined ++ [v].

(** ** The data model of [socketService.ts] *)

Record Players := mkPlayers { playerX : option string; playerO : option string }.

(** [players[currentTurn]]. *)
Definition player_of (ps : Players) (m : Mark) : option string :=
  match m with MarkX => playerX ps | MarkO => playerO ps end.

Record GameState := mkGameState {
  board : list cell;
  currentTurn : Mark;
  gameOver : bool;
  winner : option string;
  winningCombination : option (list nat);
  players : Players
}.

Record Message := mkMessage {
  msg_id : string;
  sender : string;
  text : string;
  timestamp : nat
}.

Record Room := mkRoom {
  room_id : string;
  room_name : string;
  room_players : list string;
  spectators : nat;
  isPrivate : bool
}.

(** [initialGameState].  Its board is shared by every state spread from it;
    [makeMove] copies the board before writing, so the sharing is never
    observed. *)
Definition initialGameState : GameState :=
  {| board := replicate 9 Null;
     currentTurn := MarkX;
     gameOver := false;
     winner := None;
     winningCombination := None;
     players := mkPlayers None None |}.

(** [{ ...initialGameState, players: ps }]. *)
Definition startGame (ps : Players) : GameState :=
  {| board := board initialGameState;
     currentTurn := currentTurn initialGameState;
     gameOver := gameOver initialGameState;
     winner := winner initialGameState;
     winningCombination := winningCombination initialGameState;
     players := ps |}.

Definition demoRooms : list Room :=
  [ mkRoom "demo-room-1" "Public Game Room" ["Player1"] 0 false;
    mkRoom "demo-room-2" "Quick Match" ["Player2"; "Player3"] 1 false ].

(** ** Win detection: [checkWinner] *)

Definition lines : list (list nat) :=
  [ [0; 1; 2]; [3; 4; 5]; [6; 7; 8];
    [0; 3; 6]; [1; 4; 7]; [2; 5; 8];
    [0; 4; 8]; [2; 4; 6] ].

(** The test of the loop body,
    [board[a] && board[a] === board[b] && board[a] === board[c]]. *)
Definition line_hit (b : list cell) (line : list nat) : bool :=
  match line with
  | [a1; a2; a3] =>
      truthy (get b a1) && strict_eq (get b a1) (get b a2)
                        && strict_eq (get b a1) (get b a3)
  | _ => false
  end.

(** The first line, in the order of [lines], that passes the test. *)
Definition checkWinner (b : list cell) : option (list nat) :=
  List.find (line_hit b) lines.

(** ** The connection manager: [class SocketService] *)

(** The two candidate servers, in the order in which [connect] names them. *)
Inductive Url := SOCKET_URL | FALLBACK_URL.

Global Instance Url_eq_dec : EqDecision Url.
Proof. solve_decision. Defined.

Definition candidates : list Url := [SOCKET_URL; FALLBACK_URL].

(** A socket made by [io(url, ...)]: its [connected] flag, whether the client
    closed it with [disconnect()], and the promise of the [connect] call whose
    handlers it carries.  Sockets of [SOCKET_URL] carry the handlers that
    [connect] registers, sockets of [FALLBACK_URL] those of
    [connectToFallback]. *)
Record Sock := mkSock {
  url : Url;
  connected : bool;
  closed : bool;
  owner : nat
}.

(** State of a promise returned by [connect]. *)
Inductive Settled := Pending | Resolved (b : bool) | Rejected.

Global Instance Settled_eq_dec : EqDecision Settled.
Proof. solve_decision. Defined.

(** State of the [connectTimeout] timer of a [connect] call. *)
Inductive TimerState := NoTimer | Armed | Cleared | Fired.

Record Call := mkCall { outcome : Settled; timer : TimerState }.

(** What the action methods hand to [socket.emit]. *)
Inductive Emit :=
| EmCreateRoom (roomName : string) (isPriv : bool)
| EmJoinRoom (roomId : string)
| EmLeaveRoom
| EmJoinRandom
| EmMove (index : nat)
| EmRestartGame
| EmSendMessage (txt : string) (from : string)
| EmGetRooms.

(** What a method returns: nothing, a promise already rejected with a
    reason, or a promise waiting for the server's acknowledgement. *)
Inductive Ret :=
| RetVoid
| RetRejected (reason : string)
| RetPending
| RetResolved.

(** The singleton service together with the browser state it touches: the
    fields of the class, the [tictactoe_username] entry of [localStorage],
    every socket and every [connect] promise made so far, the log of the
    [io(url)] calls with the promise each one serves, and the log of emitted
    messages with the socket that sent them. *)
Record Machine := mkMachine {
  socket : option nat;
  svc_username : option string;
  reconnectAttempts : nat;
  localStorage : option string;
  sockets : list Sock;
  calls : list Call;
  attempts : list (nat * Url);
  emitted : list (nat * Emit)
}.

(** Passed to [io] as [reconnectionAttempts], and printed; no branch of the
    service reads it. *)
Definition maxReconnectAttempts : nat := 5.

Definition init_machine : Machine :=
  {| socket := None; svc_username := None; reconnectAttempts := 0;
     localStorage := None; sockets := []; calls := []; attempts := [];
     emitted := [] |}.

Definition set_socket (v : option nat) (m : Machine) : Machine :=
  mkMachine v (svc_username m) (reconnectAttempts m) (localStorage m)
            (sockets m) (calls m) (attempts m) (emitted m).
Definition set_svc_username (v : option string) (m : Machine) : Machine :=
  mkMachine (socket m) v (reconnectAttempts m) (localStorage m)
            (sockets m) (calls m) (attempts m) (emitted m).
Definition set_reconnectAttempts (v : nat) (m : Machine) : Machine :=
  mkMachine (socket m) (svc_username m) v (localStorage m)
            (sockets m) (calls m) (attempts m) (emitted m).
Definition set_localStorage (v : option string) (m : Machine) : Machine :=
  mkMachine (socket m) (svc_username m) (reconnectAttempts m) v
            (sockets m) (calls m) (attempts m) (emitted m).
Definition set_sockets (v : list Sock) (m : Machine) : Machine :=
  mkMachine (socket m) (svc_username m) (reconnectAttempts m) (localStorage m)
            v (calls m) (attempts m) (emitted m).
Definition set_calls (v : list Call) (m : Machine) : Machine :=
  mkMachine (socket m) (svc_username m) (reconnectAttempts m) (localStorage m)
            (sockets m) v (attempts m) (emitted m).
Definition set_attempts (v : list (nat * Url)) (m : Machine) : Machine :=
  mkMachine (socket m) (svc_username m) (reconnectAttempts m) (localStorage m)
            (sockets m) (calls m) v (emitted m).
Definition set_emitted (v : list (nat * Emit)) (m : Machine) : Machine :=
  mkMachine (socket m) (svc_username m) (reconnectAttempts m) (localStorage m)
            (sockets m) (calls m) (attempts m) v.

(** [this.socket && this.socket.connected]. *)
Definition socket_connected (m : Machine) : bool :=
  match socket m with
  | Some s => match sockets m !! s with
              | Some k => connected k
              | None => false
              end
  | None => false
  end.

(** [resolve(v)] or [reject(e)]: a promise settles once, later calls are
    ignored. *)
Definition settle_call (v : Settled) (c : Call) : Call :=
  match outcome c with
  | Pending => mkCall v (timer c)
  | _ => c
  end.

(** [clearTimeout(connectTimeout)]: only an armed timer changes. *)
Definition clear_call (c : Call) : Call :=
  match timer c with
  | Armed => mkCall (outcome c) Cleared
  | _ => c
  end.

(** The timer's callback has started to run. *)
Definition fire_call (c : Call) : Call := mkCall (outcome c) Fired.

(** [socket.disconnect()] by the client. *)
Definition close_sock (k : Sock) : Sock := mkSock (url k) false true (owner k).

(** The library sets [socket.connected] before it runs the handlers. *)
Definition flag_sock (v : bool) (k : Sock) : Sock :=
  mkSock (url k) v (closed k) (owner k).

Definition settle (p : nat) (v : Settled) (m : Machine) : Machine :=
  set_calls (alter (settle_call v) p (calls m)) m.

Definition clearTimeout (p : nat) (m : Machine) : Machine :=
  set_calls (alter clear_call p (calls m)) m.

Definition close_socket (s : nat) (m : Machine) : Machine :=
  set_sockets (alter close_sock s (sockets m)) m.

Definition mark_connected (s : nat) (v : bool) (m : Machine) : Machine :=
  set_sockets (alter (flag_sock v) s (sockets m)) m.

(** The calls of the service and the events of its sockets and timers. *)
Inductive Event :=
| Connect (u : string)        (* socketService.connect(u) *)
| Disconnect                  (* socketService.disconnect() *)
| OnConnect (s : nat)         (* socket s fires "connect" *)
| OnConnectError (s : nat)    (* socket s fires "connect_error" *)
| OnDisconnect (s : nat)      (* socket s fires "disconnect" *)
| OnTimeout (p : nat).        (* the connectTimeout of call p fires *)

Section Connection.

(** [io(url, opts)] is the library's; the code guards both calls with
    [try]/[catch].  [io_throws n] says whether the [n]-th call of [io]
    (counted from 0) throws. *)
Variable io_throws : nat -> bool.

(** [connectToFallback(username, resolve, reject)] for the promise [p]. *)
Definition connectToFallback (p : nat) (m : Machine) : Machine :=
  let m := set_reconnectAttempts (S (reconnectAttempts m)) m in
  let n := length (attempts m) in
  let m := set_attempts (attempts m ++ [(p, FALLBACK_URL)]) m in
  if io_throws n then
    (* catch: resolve(false) *)
    settle p (Resolved false) m
  else
    let s := length (sockets m) in
    set_socket (Some s)
      (set_sockets (sockets m ++ [mkSock FALLBACK_URL false false p]) m).

(** [connect(username)]; the promise it returns is the one numbered
    [length (calls m)]. *)
Definition connect (u : string) (m : Machine) : Machine :=
  let m := set_localStorage (Some u) (set_svc_username (Some u) m) in
  if socket_connected m then
    (* return Promise.resolve(true) *)
    set_calls (calls m ++ [mkCall (Resolved true) NoTimer]) m
  else
    let n := length (attempts m) in
    let p := length (calls m) in
    let m := set_attempts (attempts m ++ [(p, SOCKET_URL)]) m in
    if io_throws n then
      (* catch: reject(error) *)
      set_calls (calls m ++ [mkCall Rejected NoTimer]) m
    else
      let s := length (sockets m) in
      set_calls (calls m ++ [mkCall Pending Armed])
        (set_socket (Some s)
           (set_sockets (sockets m ++ [mkSock SOCKET_URL false false p]) m)).

(** [disconnect()]. *)
Definition disconnect (m : Machine) : Machine :=
  match socket m with
  | Some s => set_svc_username None (set_socket None (close_socket s m))
  | None => m
  end.

(** The ["connect"] handler of socket [s]. *)
Definition on_connect (s : nat) (m : Machine) : Machine :=
  match sockets m !! s with
  | Some k =>
      if connected k || closed k then m else
      let m := mark_connected s true m in
      match url k with
      | SOCKET_URL =>
          settle (owner k) (Resolved true)
            (set_reconnectAttempts 0 (clearTimeout (owner k) m))
      | FALLBACK_URL =>
          settle (owner k) (Resolved true) (set_reconnectAttempts 0 m)
      end
  | None => m
  end.

(** The ["connect_error"] handler of socket [s]. *)
Definition on_connect_error (s : nat) (m : Machine) : Machine :=
  match sockets m !! s with
  | Some k =>
      if connected k || closed k then m else
      match url k with
      | SOCKET_URL =>
          let m := clearTimeout (owner k) m in
          if decide (reconnectAttempts m = 0) then connectToFallback (owner k) m
          else settle (owner k) (Resolved false) m
      | FALLBACK_URL => settle (owner k) (Resolved false) m
      end
  | None => m
  end.

(** The ["disconnect"] handler only logs; the socket is no longer
    connected. *)
Definition on_disconnect (s : nat) (m : Machine) : Machine :=
  match sockets m !! s with
  | Some k => if connected k then mark_connected s false m else m
  | None => m
  end.

(** The callback of [connectTimeout] for call [p], 5000 ms after the call,
    unless cleared before. *)
Definition on_timeout (p : nat) (m : Machine) : Machine :=
  match calls m !! p with
  | Some (mkCall o Armed) =>
      let m := set_calls (alter fire_call p (calls m)) m in
      match socket m with
      | Some s =>
          if socket_connected m then m
          else connectToFallback p (close_socket s m)
      | None => m
      end
  | _ => m
  end.

Definition step (m : Machine) (e : Event) : Machine :=
  match e with
  | Connect u => connect u m
  | Disconnect => disconnect m
  | OnConnect s => on_connect s m
  | OnConnectError s => on_connect_error s m
  | OnDisconnect s => on_disconnect s m
  | OnTimeout p => on_timeout p m
  end.

Definition run (m : Machine) (es : list Event) : Machine := foldl step m es.

(** The states the service can be in, whatever name an earlier session
    left in [localStorage]. *)
Inductive reachable : Machine -> Prop :=
| reach_init stored : reachable (set_localStorage stored init_machine)
| reach_step m e : reachable m -> reachable (step m e).

End Connection.

(** The [io(url)] calls made for promise [p], in the order they were made. *)
Definition attempts_of (p : nat) (m : Machine) : list Url :=
  (filter (fun a => a.1 = p) (attempts m)).*2.

(** State of the promise [p]; a promise not made yet is pending. *)
Definition call_outcome (cs : list Call) (p : nat) : Settled :=
  match cs !! p with
  | Some c => outcome c
  | None => Pending
  end.

Definition outcome_of (p : nat) (m : Machine) : Settled :=
  call_outcome (calls m) p.

(** *** What the specification says about [connect] *)

(** Attempts in the declared order: the primary URL first and once, the
    fallback URL only after it. *)
Definition in_declared_order (us : list Url) : Prop :=
  us = [] \/ exists k, us = SOCKET_URL :: replicate k FALLBACK_URL.

(** Every candidate has been attempted for promise [p]. *)
Definition all_candidates_attempted (p : nat) (m : Machine) : Prop :=
  Forall (fun u => u ∈ attempts_of p m) candidates.

(** The event is a ["connect_error"] of a socket that [connect] made for
    promise [p] with the primary URL. *)
Definition primary_error (m : Machine) (e : Event) (p : nat) : Prop :=
  exists s k, e = OnConnectError s /\ sockets m !! s = Some k /\
              url k = SOCKET_URL /\ owner k = p.

(** The event is the firing of the armed [connectTimeout] of promise [p]. *)
Definition primary_timeout (m : Machine) (e : Event) (p : nat) : Prop :=
  e = OnTimeout p /\ exists o, calls m !! p = Some (mkCall o Armed).

(** The ways in which an event settles a promise of [connect]. *)
Inductive settles (io_throws : nat -> bool) (m : Machine)
  : Event -> nat -> Settled -> Prop :=
| settles_already_connected u :
    socket_connected m = true ->
    settles io_throws m (Connect u) (length (calls m)) (Resolved true)
| settles_primary_throws u :
    socket_connected m = false ->
    io_throws (length (attempts m)) = true ->
    settles io_throws m (Connect u) (length (calls m)) Rejected
| settles_connected s k :
    sockets m !! s = Some k ->
    settles io_throws m (OnConnect s) (owner k) (Resolved true)
| settles_fallback_error s k :
    sockets m !! s = Some k -> url k = FALLBACK_URL ->
    settles io_throws m (OnConnectError s) (owner k) (Resolved false)
| settles_primary_error_counted s k :
    sockets m !! s = Some k -> url k = SOCKET_URL ->
    reconnectAttempts m <> 0 ->
    settles io_throws m (OnConnectError s) (owner k) (Resolved false)
| settles_fallback_throws_on_error s k :
    sockets m !! s = Some k -> url k = SOCKET_URL ->
    reconnectAttempts m = 0 ->
    io_throws (length (attempts m)) = true ->
    settles io_throws m (OnConnectError s) (owner k) (Resolved false)
| settles_fallback_throws_on_timeout p o :
    calls m !! p = Some (mkCall o Armed) ->
    io_throws (length (attempts m)) = true ->
    settles io_throws m (OnTimeout p) p (Resolved false).

(** The identity of the sockets made so far: promise served and URL. *)
Definition sock_ids (m : Machine) : list (nat * Url) :=
  (fun k => (owner k, url k)) <$> sockets m.

Definition armed (m : Machine) (p : nat) : Prop :=
  exists o, calls m !! p = Some (mkCall o Armed).

(** What holds of every state of the service. *)
Record machine_ok (m : Machine) : Prop := mkMachineOk {
  ok_attempt_call : forall q u, (q, u) ∈ attempts m -> q < length (calls m);
  ok_socket_logged : forall q u, (q, u) ∈ sock_ids m -> (q, u) ∈ attempts m;
  ok_timer_logged : forall p, armed m p -> (p, SOCKET_URL) ∈ attempts m;
  ok_order : forall p, in_declared_order (attempts_of p m)
}.

(** A trace on which a second [connect] fails without trying the fallback. *)
Definition io_never_throws : nat -> bool := fun _ => false.
Definition io_always_throws : nat -> bool := fun _ => true.

Definition second_login : list Event :=
  [Connect "ann"; OnConnectError 0; OnConnectError 1; Disconnect;
   Connect "ann"; OnConnectError 2].

(** *** Room, game and chat actions of the service *)

Definition emit (e : Emit) (s : nat) (m : Machine) : Machine :=
  set_emitted (emitted m ++ [(s, e)]) m.

Definition svc_createRoom (roomName : string) (isPriv : bool) (m : Machine)
  : Machine * Ret :=
  match socket m with
  | None => (m, RetRejected "Not connected")
  | Some s => (emit (EmCreateRoom roomName isPriv) s m, RetPending)
  end.

Definition svc_joinRoom (roomId : string) (m : Machine) : Machine * Ret :=
  match socket m with
  | None => (m, RetRejected "Not connected")
  | Some s => (emit (EmJoinRoom roomId) s m, RetPending)
  end.

Definition svc_leaveRoom (m : Machine) : Machine * Ret :=
  match socket m with
  | None => (m, RetVoid)
  | Some s => (emit EmLeaveRoom s m, RetVoid)
  end.

Definition svc_joinRandomGame (m : Machine) : Machine * Ret :=
  match socket m with
  | None => (m, RetRejected "Not connected")
  | Some s => (emit EmJoinRandom s m, RetPending)
  end.

Definition svc_makeMove (index : nat) (m : Machine) : Machine * Ret :=
  match socket m with
  | None => (m, RetVoid)
  | Some s => (emit (EmMove index) s m, RetVoid)
  end.

Definition svc_restartGame (m : Machine) : Machine * Ret :=
  match socket m with
  | None => (m, RetVoid)
  | Some s => (emit EmRestartGame s m, RetVoid)
  end.

(** [if (!this.socket || !this.username) return;]. *)
Definition svc_sendMessage (message : string) (m : Machine) : Machine * Ret :=
  match socket m, svc_username m with
  | Some s, Some u =>
      if String.eqb u "" then (m, RetVoid)
      else (emit (EmSendMessage message u) s m, RetVoid)
  | _, _ => (m, RetVoid)
  end.

Definition svc_getRoomList (m : Machine) : Machine * Ret :=
  match socket m with
  | None => (m, RetRejected "Not connected")
  | Some s => (emit EmGetRooms s m, RetPending)
  end.

(** ** The provider of [GameContext.tsx] *)

(** A pending callback of the one-second [setTimeout] of [makeMove]: the
    game state its closure sees (the one of the render that scheduled it) and
    the [newBoard] it captured. *)
Record BotTimer := mkBotTimer { seen : GameState; captured : list cell }.

(** The React state of [GameProvider], the service it drives and the bot
    timers not fired yet. *)
Record World := mkWorld {
  username : option string;
  gameState : option GameState;
  rooms : list Room;
  messages : list Message;
  currentRoom : option string;
  isOfflineMode : bool;
  machine : Machine;
  botTimers : list BotTimer
}.

Definition set_username (v : option string) (w : World) : World :=
  mkWorld v (gameState w) (rooms w) (messages w) (currentRoom w)
          (isOfflineMode w) (machine w) (botTimers w).
Definition set_gameState (v : option GameState) (w : World) : World :=
  mkWorld (username w) v (rooms w) (messages w) (currentRoom w)
          (isOfflineMode w) (machine w) (botTimers w).
Definition set_rooms (v : list Room) (w : World) : World :=
  mkWorld (username w) (gameState w) v (messages w) (currentRoom w)
          (isOfflineMode w) (machine w) (botTimers w).
Definition set_messages (v : list Message) (w : World) : World :=
  mkWorld (username w) (gameState w) (rooms w) v (currentRoom w)
          (isOfflineMode w) (machine w) (botTimers w).
Definition set_currentRoom (v : option string) (w : World) : World :=
  mkWorld (username w) (gameState w) (rooms w) (messages w) v
          (isOfflineMode w) (machine w) (botTimers w).
Definition set_isOfflineMode (v : bool) (w : World) : World :=
  mkWorld (username w) (gameState w) (rooms w) (messages w) (currentRoom w)
          v (machine w) (botTimers w).
Definition set_machine (v : Machine) (w : World) : World :=
  mkWorld (username w) (gameState w) (rooms w) (messages w) (currentRoom w)
          (isOfflineMode w) v (botTimers w).
Definition set_botTimers (v : list BotTimer) (w : World) : World :=
  mkWorld (username w) (gameState w) (rooms w) (messages w) (currentRoom w)
          (isOfflineMode w) (machine w) v.


(** [username || "You"]. *)
Definition name_or_You (o : option string) : string :=
  match o with
  | Some s => if String.eqb s "" then "You" else s
  | None => "You"
  end.

(** [setUsername(name)]. *)
Definition setUsername (name : string) (w : World) : World :=
  set_machine (set_localStorage (Some name) (machine w))
    (set_username (Some name) w).

(** The offline branch of [makeMove] once [gameState] is known not to be
    null: [None] when the guard returns early, otherwise the state handed to
    [setGameState] and, when the bot is to answer, the [newBoard] its timer
    captures. *)
Definition offlineMove (gs : GameState) (index : nat)
  : option (GameState * option (list cell)) :=
  if truthy (get (board gs) index) || gameOver gs then None
  else
    let newBoard := js_set (board gs) index (Str (mark_str (currentTurn gs))) in
    let win := checkWinner newBoard in
    let isDraw := negb (bool_decide (is_Some win)) && forallb not_null newBoard in
    let gs' :=
      {| board := newBoard;
         currentTurn := other (currentTurn gs);
         gameOver := bool_decide (is_Some win) || isDraw;
         winner := match win with
                   | Some _ => player_of (players gs) (currentTurn gs)
                   | None => None
                   end;
         winningCombination := win;
         players := players gs |} in
    let bot :=
      if negb (bool_decide (is_Some win)) && negb isDraw
         && bool_decide (currentTurn gs = MarkX)
         && negb (truthy_name (playerO (players gs)))
      then Some newBoard else None in
    Some (gs', bot).

(** [makeMove(index)] as called from a render whose state is [w]; [index] is
    an array index, which is what the board component and the bot pass. *)
Definition makeMove (w : World) (index : nat) : World :=
  if isOfflineMode w then
    match gameState w with
    | None => w
    | Some gs =>
        match offlineMove gs index with
        | None => w
        | Some (gs', bot) =>
            let w := set_gameState (Some gs') w in
            match bot with
            | Some newBoard =>
                set_botTimers (botTimers w ++ [mkBotTimer gs newBoard]) w
            | None => w
            end
        end
    end
  else set_machine (svc_makeMove index (machine w)).1 w.

(** [newBoard.map((cell, idx) => cell === null ? idx : -1).filter(idx => idx !== -1)]. *)
Definition emptyCells (b : list cell) : list nat :=
  (filter (fun ic => ic.2 = Null) (imap (fun i c => (i, c)) b)).*1.

(** The callback of bot timer [k]; [r] stands for
    [Math.floor(Math.random() * emptyCells.length)].  The [makeMove] it calls
    is the one of the render that scheduled it, so the move is computed from
    the game state that render saw, and [setGameState] replaces the current
    one. *)
Definition botFire (w : World) (k r : nat) : World :=
  match botTimers w !! k with
  | None => w
  | Some t =>
      let w := set_botTimers (delete k (botTimers w)) w in
      match emptyCells (captured t) !! r with
      | None => w
      | Some index =>
          match offlineMove (seen t) index with
          | None => w
          | Some (gs', bot) =>
              let w := set_gameState (Some gs') w in
              match bot with
              | Some newBoard =>
                  set_botTimers (botTimers w ++ [mkBotTimer (seen t) newBoard]) w
              | None => w
              end
          end
      end
  end.

(** [restartGame()]; [uid] and [now] stand for [uuidv4()] and [Date.now()]. *)
Definition restartGame (w : World) (uid : string) (now : nat) : World :=
  if isOfflineMode w then
    let ps := match gameState w with
              | Some gs => players gs
              | None => mkPlayers (username w) None
              end in
    let w := set_gameState (Some (startGame ps)) w in
    set_messages (messages w ++ [mkMessage uid "System" "Game has been restarted." now]) w
  else set_machine (svc_restartGame (machine w)).1 w.

(** [rooms.find(r => r.id === id)]. *)
Definition find_room (id : string) (rs : list Room) : option Room :=
  List.find (fun r => String.eqb (room_id r) id) rs.

(** [joinRoom(id)], with the promise it returns.  Online, the [then] that sets
    the current room runs when the server acknowledges ([joinRoom_ack]). *)
Definition joinRoom (w : World) (id : string) (uid : string) (now : nat)
  : World * Ret :=
  if isOfflineMode w then
    match find_room id (rooms w) with
    | None => (w, RetRejected "Room not found")
    | Some roomToJoin =>
        if decide (2 <= length (room_players roomToJoin)) then
          (w, RetRejected "Room is full")
        else
          let updatedRooms :=
            map (fun r =>
                   if String.eqb (room_id r) id then
                     mkRoom (room_id r) (room_name r)
                            (room_players r ++ [name_or_You (username w)])
                            (spectators r) (isPrivate r)
                   else r) (rooms w) in
          let w := set_currentRoom (Some id) (set_rooms updatedRooms w) in
          let w := set_gameState
                     (Some (startGame (mkPlayers (head (room_players roomToJoin))
                                                 (username w)))) w in
          let w := set_messages
                     [mkMessage uid "System" "Welcome to the game room!" now] w in
          (w, RetResolved)
    end
  else
    let '(m, r) := svc_joinRoom id (machine w) in (set_machine m w, r).

Definition joinRoom_ack (w : World) (id : string) : World :=
  set_currentRoom (Some id) w.

(** [disconnectFromServer()]. *)
Definition disconnectFromServer (w : World) : World :=
  let w := set_machine (disconnect (machine w)) w in
  let w := set_gameState None w in
  let w := set_currentRoom None w in
  let w := set_rooms [] w in
  let w := set_messages [] w in
  let w := set_username None w in
  set_isOfflineMode false w.

(** [handleLogout()] of [Index.tsx]: [disconnectFromServer()], then
    [localStorage.removeItem("tictactoe_username")]. *)
Definition handleLogout (w : World) : World :=
  let w := disconnectFromServer w in
  set_machine (set_localStorage None (machine w)) w.

(** The part of the provider's effect that reads the stored name; it runs
    again after a render that changed [isOfflineMode]. *)
Definition storedNameEffect (w : World) : World :=
  if isOfflineMode w then w
  else if truthy_name (localStorage (machine w))
       then set_username (localStorage (machine w)) w
       else w.

(** [connectToServer(username)]: the call of [connect], and what the [then]
    and [catch] handlers do once the promise of [connect] is in state [o],
    with the state of the promise [connectToServer] returns. *)
Definition connectToServer (io_throws : nat -> bool) (u : string) (w : World)
  : World :=
  set_machine (connect io_throws u (machine w)) w.

Definition connectToServer_settled (u : string) (o : Settled) (w : World)
  : World * Settled :=
  match o with
  | Pending => (w, Pending)
  | Resolved success =>
      let w := setUsername u w in
      if success then
        let w := set_isOfflineMode false w in
        (set_machine (svc_getRoomList (machine w)).1 w, Resolved true)
      else
        (set_rooms demoRooms (set_isOfflineMode true w), Resolved false)
  | Rejected =>
      (set_rooms demoRooms (set_isOfflineMode true w), Resolved false)
  end.

(** Offline play: moves of the user and answers of the bot. *)
Inductive Play := UserMove (index : nat) | BotMove (k r : nat).

Definition play (w : World) (a : Play) : World :=
  match a with
  | UserMove index => makeMove w index
  | BotMove k r => botFire w k r
  end.

(** ** What the specification says about the action methods *)

(** A method fails when the promise it returns is rejected. *)
Definition fails (r : Ret) : Prop := exists reason, r = RetRejected reason.

Definition no_failure (r : Ret) : Prop := ~ fails r.

(** ** What the specification says about a board *)

(** A cell is occupied when it holds a non-empty string (the marks ["X"] and
    ["O"] are such); this is what the guard of [makeMove] tests. *)
Definition occupied (c : cell) : Prop := truthy c = true.

(** Every cell of [line] holds the same mark. *)
Definition line_won (b : list cell) (line : list nat) : Prop :=
  exists m, Forall (fun i => get b i = Str (mark_str m)) line.

(** One of the eight fixed lines is fully occupied by one mark. *)
Definition winning_line_exists (b : list cell) : Prop :=
  exists line, line ∈ lines /\ line_won b line.

(** All 9 cells of the board are non-empty. *)
Definition all_nine_filled (b : list cell) : Prop :=
  forall i, i < 9 -> get b i <> Null.

(** The shape of a board during offline play: each of the nine cells is empty
    or holds a mark, and whatever an out-of-range move appended is not
    [null]. *)
Definition cells_ok (b : list cell) : Prop :=
  forall i,
    if decide (i < 9)
    then get b i = Null \/ exists m, get b i = Str (mark_str m)
    else get b i <> Null.

Definition gameOver_spec (gs : GameState) : Prop :=
  gameOver gs = true <->
  winning_line_exists (board gs) \/ all_nine_filled (board gs).

Definition game_ok (gs : GameState) : Prop :=
  cells_ok (board gs) /\ gameOver_spec gs.

(** The board of the scenario: [[X, X, null, O, O, null, null, null, null]]. *)
Definition scenario_board : list cell :=
  [Str "X"; Str "X"; Null; Str "O"; Str "O"; Null; Null; Null; Null].

Definition state_ok (w : World) : Prop :=
  isOfflineMode w = true /\ exists gs, gameState w = Some gs /\ game_ok gs.

(** With the bot: the states its timers saw have the right shape too. *)
Definition world_ok (w : World) : Prop :=
  state_ok w /\ Forall (fun t => cells_ok (board (seen t))) (botTimers w).

(** ** Sample states, used to exercise the statements below *)

Definition sample_players : Players := mkPlayers (Some "ann") (Some "bob").

Definition sample_world : World :=
  mkWorld (Some "bob") (Some (startGame sample_players)) demoRooms [] (Some "demo-room-1")
          true init_machine [].

(** The scenario's board with X to move: the state after moves 0, 3, 1, 4. *)
Definition scenario_state : GameState :=
  {| board := scenario_board; currentTurn := MarkX; gameOver := false;
     winner := None; winningCombination := None; players := sample_players |}.

(** The state after X then completes the top row. *)
Definition won_state : GameState :=
  {| board := [Str "X"; Str "X"; Str "X"; Str "O"; Str "O"; Null; Null; Null; Null];
     currentTurn := MarkO; gameOver := true;
     winner := Some "ann"; winningCombination := Some [0; 1; 2];
     players := sample_players |}.

(** ** The rest of the provider: rooms and chat *)

(** [`room-${Date.now()}`]. *)
Definition newRoomId (now : nat) : string := "room-" +:+ pretty now.

(** [createRoom(name, isPrivate)], with the promise it returns; [now] stands
    for [Date.now()].  Online, the [then] that sets the current room runs
    when the server answers. *)
Definition createRoom (w : World) (name : string) (isPriv : bool) (now : nat)
  : World * Ret :=
  if isOfflineMode w then
    let newRoom :=
      mkRoom (newRoomId now) name [name_or_You (username w)] 0 isPriv in
    let w := set_rooms (rooms w ++ [newRoom]) w in
    let w := set_currentRoom (Some (newRoomId now)) w in
    let w := set_gameState (Some (startGame (mkPlayers (username w) None))) w in
    (w, RetResolved)
  else
    let '(m, r) := svc_createRoom name isPriv (machine w) in (set_machine m w, r).

(** [leaveRoom()]. *)
Definition leaveRoom (w : World) : World :=
  let w := if isOfflineMode w then w
           else set_machine (svc_leaveRoom (machine w)).1 w in
  set_messages [] (set_gameState None (set_currentRoom None w)).

(** [rooms.find(r => !r.isPrivate && r.players.length < 2)]. *)
Definition find_available (rs : list Room) : option Room :=
  List.find (fun r => negb (isPrivate r)
                      && bool_decide (length (room_players r) < 2)) rs.

(** [joinRandomGame()]. *)
Definition joinRandomGame (w : World) (uid : string) (now : nat) : World * Ret :=
  if isOfflineMode w then
    match find_available (rooms w) with
    | Some availableRoom => joinRoom w (room_id availableRoom) uid now
    | None => createRoom w "Quick Game" false now
    end
  else
    let '(m, r) := svc_joinRandomGame (machine w) in (set_machine m w, r).

(** What the callback of the chat timer of [sendMessage] closes over: the
    game state and the user name of the render that scheduled it. *)
Record ChatTimer := mkChatTimer {
  chat_game : option GameState;
  chat_user : option string
}.

(** [sendMessage(message)], with the timer it sets; [uid] and [now] stand for
    [uuidv4()] and [Date.now()]. *)
Definition sendMessage (w : World) (message uid : string) (now : nat)
  : World * option ChatTimer :=
  if isOfflineMode w then
    (set_messages
       (messages w ++ [mkMessage uid (name_or_You (username w)) message now]) w,
     Some (mkChatTimer (gameState w) (username w)))
  else (set_machine (svc_sendMessage message (machine w)).1 w, None).

Definition botResponses : list string :=
  [ "I see what you mean.";
    "Interesting move!";
    "Let me think about that.";
    "Good game so far!";
    "I'm enjoying this match.";
    "Your strategy is interesting.";
    "Let's have a good game!" ].

(** [name || "Opponent"]. *)
Definition or_Opponent (o : option string) : string :=
  match o with
  | Some s => if String.eqb s "" then "Opponent" else s
  | None => "Opponent"
  end.

(** The [sender] of the canned reply.  With no game state,
    [gameState?.players.X] is [undefined], which is not [===] to any user
    name, null included. *)
Definition reply_sender (t : ChatTimer) : string :=
  match chat_game t with
  | Some gs =>
      if decide (playerX (players gs) = chat_user t)
      then or_Opponent (playerO (players gs))
      else or_Opponent (playerX (players gs))
  | None => "Opponent"
  end.

(** The callback of a chat timer; [r] stands for
    [Math.floor(Math.random() * botResponses.length)], which is below 7. *)
Definition botReply (w : World) (t : ChatTimer) (r : nat) (uid : string) (now : nat)
  : World :=
  set_messages
    (messages w
     ++ [mkMessage uid (reply_sender t) (default "" (botResponses !! r)) now]) w.

(** What can add to the message log during a game. *)
Inductive ChatAct :=
| Send (message uid : string) (now : nat)
| Reply (t : ChatTimer) (r : nat) (uid : string) (now : nat)
| Restart (uid : string) (now : nat).

Definition chat (w : World) (a : ChatAct) : World :=
  match a with
  | Send message uid now => (sendMessage w message uid now).1
  | Reply t r uid now => botReply w t r uid now
  | Restart uid now => restartGame w uid now
  end.

(** ** The board component, [GameBoard.tsx], and the gate of [Index.tsx] *)

(** [username === gameState.players.X ? "X" : "O"]. *)
Definition playerMarker (u : option string) (gs : GameState) : Mark :=
  if decide (u = playerX (players gs)) then MarkX else MarkO.

(** [isPlayerTurn()]. *)
Definition isPlayerTurn (u : option string) (gs : GameState) : bool :=
  bool_decide (playerMarker u gs = currentTurn gs) && negb (gameOver gs).

(** The [onClick] of cell [index]. *)
Definition cellClick (w : World) (index : nat) : World :=
  match gameState w with
  | Some gs =>
      if negb (truthy (get (board gs) index))
         && isPlayerTurn (username w) gs && negb (gameOver gs)
      then makeMove w index
      else w
  | None => w
  end.



(** ** Counting marks *)

Definition count_mark (m : Mark) (b : list cell) : nat :=
  length (filter (fun c => c = Str (mark_str m)) b).

(** X has moved as often as O when it is X's turn, once more when it is
    O's. *)
Definition turn_matches_counts (gs : GameState) : Prop :=
  match currentTurn gs with
  | MarkX => count_mark MarkX (board gs) = count_mark MarkO (board gs)
  | MarkO => count_mark MarkX (board gs) = S (count_mark MarkO (board gs))
  end.

(** The three cells of [line] hold the same non-empty string. *)
Definition same_nonempty (b : list cell) (line : list nat) : Prop :=
  exists s, s <> "" /\ Forall (fun i => get b i = Str s) line.

(** Every room has at most two occupants. *)
Definition capacity_ok (rs : list Room) : Prop :=
  Forall (fun r => length (room_players r) <= 2) rs.

(** The winner fields agree with the board: a winning combination is one of
    the eight lines, filled with the mark of the player who moved last, whose
    display name is the winner; without one there is no winner and no line is
    won. *)
Definition winner_matches (gs : GameState) : Prop :=
  match winningCombination gs with
  | Some line =>
      line ∈ lines /\
      Forall (fun i => get (board gs) i = Str (mark_str (other (currentTurn gs)))) line /\
      winner gs = player_of (players gs) (other (currentTurn gs)) /\
      gameOver gs = true
  | None => winner gs = None /\ ~ winning_line_exists (board gs)
  end.

(** Room [r] with [me] added as its last occupant, and the update that
    [joinRoom] maps over the list for identifier [id]. *)
Definition seat (me : string) (r : Room) : Room :=
  mkRoom (room_id r) (room_name r) (room_players r ++ [me])
         (spectators r) (isPrivate r).

Definition seat_in (id me : string) (r : Room) : Room :=
  if String.eqb (room_id r) id then seat me r else r.

(** The system message that greets a player who joined. *)
Definition welcome (uid : string) (now : nat) : Message :=
  mkMessage uid "System" "Welcome to the game room!" now.

(** A user alone in the room just created, offline: the bot is to answer. *)
Definition solo_world : World :=
  mkWorld (Some "ann") (Some (startGame (mkPlayers (Some "ann") None)))
          demoRooms [] (Some "room-1") true init_machine [].

(** ** The login form, [UsernameForm] *)

(** A JavaScript string as its UTF-16 code units, which is what [length]
    counts and [trim] inspects. *)
Definition JsString := list N.

(** The code units [trim] removes: the white space and line terminators of
    ECMAScript. *)
Definition js_spaces : list N :=
  [9; 10; 11; 12; 13; 32; 160; 5760;
   8192; 8193; 8194; 8195; 8196; 8197; 8198; 8199; 8200; 8201; 8202;
   8232; 8233; 8239; 8287; 12288; 65279]%N.

Definition is_js_space (c : N) : bool := bool_decide (c ∈ js_spaces).

Fixpoint trimStart (s : JsString) : JsString :=
  match s with
  | c :: s' => if is_js_space c then trimStart s' else s
  | [] => []
  end.

Definition trimEnd (s : JsString) : JsString := reverse (trimStart (reverse s)).

(** [s.trim()]. *)
Definition trim (s : JsString) : JsString := trimEnd (trimStart s).

(** What [handleSubmit] does with the text of the field: it sets the error
    text, or calls [onSubmit] with a name. *)
Inductive Submission := SetError (msg : string) | OnSubmit (name : JsString).

Definition handleSubmit (username : JsString) : Submission :=
  if bool_decide (length (trim username) < 3) then
    SetError "Username must be at least 3 characters"
  else if bool_decide (15 < length (trim username)) then
    SetError "Username must be less than 15 characters"
  else OnSubmit (trim username).

(** No white space at either end. *)
Definition trimmed (s : JsString) : Prop :=
  (forall c, head s = Some c -> is_js_space c = false) /\
  (forall c, last s = Some c -> is_js_space c = false).

(** ** Subscriptions of the service *)

(** The events of [onGameState], [onRoomList], [onMessage], [onPlayerJoined]
    and [onPlayerLeft]. *)
Inductive Channel :=
| game_state | room_list | new_message | player_joined | player_left.

Global Instance Channel_eq_dec : EqDecision Channel.
Proof. solve_decision. Defined.

(** A callback registered with [socket.on]: the socket, the event and the
    callback (by identity). *)
Definition Listener : Type := nat * Channel * nat.

(** [socket.off(event, callback)] takes one registration of the callback off
    the socket. *)
Fixpoint remove_first (x : Listener) (ls : list Listener) : list Listener :=
  match ls with
  | [] => []
  | y :: ls' => if decide (x = y) then ls' else y :: remove_first x ls'
  end.

(** [on<Event>(callback)]: the listeners afterwards, and whether an
    unsubscribe handle is returned (without a socket the method returns
    [undefined]). *)
Definition subscribe (ch : Channel) (cb : nat) (m : Machine) (ls : list Listener)
  : list Listener * bool :=
  match socket m with
  | None => (ls, false)
  | Some s => ((ls ++ [(s, ch, cb)])%list, true)
  end.

(** The handle [() => this.socket?.off(event, callback)], called when the
    service is in state [m]. *)
Definition unsubscribe (ch : Channel) (cb : nat) (m : Machine) (ls : list Listener)
  : list Listener :=
  match socket m with
  | None => ls
  | Some s => remove_first (s, ch, cb) ls
  end.

(** ** The service that rotates over three servers

    The variant of [class SocketService] with [SERVER_OPTIONS], [tryConnect]
    and [tryNextServer]. *)

Module Rotation.

Definition SERVER_OPTIONS : list string :=
  [ "https://tic-tac-toe-server-production.up.railway.app";
    "https://tictactoe-socket-server.onrender.com";
    "https://tictactoe-server.adaptable.app" ].

Definition maxReconnectAttempts : nat := 3.

(** [this.maxReconnectAttempts * SERVER_OPTIONS.length]. *)
Definition ceiling : nat := maxReconnectAttempts * length SERVER_OPTIONS.

(** A socket made by [tryConnect]: the index of its server, its [connected]
    flag, whether the client closed it, whether its handlers are still
    registered ([removeAllListeners] takes them off), and the promise its
    handlers resolve. *)
Record Sock := mkSock {
  server : nat;
  connected : bool;
  closed : bool;
  listening : bool;
  call : nat
}.

(** A promise made by [tryConnect], the timer of that call, and the promises
    that follow it: [tryNextServer] chains [tryConnect(next).then(resolve)],
    so the promise of the call that failed settles with the new one. *)
Record Call := mkCall {
  outcome : Settled;
  timer : TimerState;
  followers : list nat
}.

(** The fields of the class, the stored name, the sockets and promises made
    so far, the log of the [io] calls (promise and server index), and the
    number of two-second reconnection timers not fired yet. *)
Record Machine := mkMachine {
  socket : option nat;
  username : option string;
  reconnectAttempts : nat;
  currentServerIndex : nat;
  localStorage : option string;
  sockets : list Sock;
  calls : list Call;
  tried : list (nat * nat);
  reconnects : nat
}.

Definition init_machine : Machine :=
  mkMachine None None 0 0 None [] [] [] 0.

Definition set_socket (v : option nat) (m : Machine) : Machine :=
  mkMachine v (username m) (reconnectAttempts m) (currentServerIndex m)
            (localStorage m) (sockets m) (calls m) (tried m) (reconnects m).
Definition set_username (v : option string) (m : Machine) : Machine :=
  mkMachine (socket m) v (reconnectAttempts m) (currentServerIndex m)
            (localStorage m) (sockets m) (calls m) (tried m) (reconnects m).
Definition set_reconnectAttempts (v : nat) (m : Machine) : Machine :=
  mkMachine (socket m) (username m) v (currentServerIndex m)
            (localStorage m) (sockets m) (calls m) (tried m) (reconnects m).
Definition set_currentServerIndex (v : nat) (m : Machine) : Machine :=
  mkMachine (socket m) (username m) (reconnectAttempts m) v
            (localStorage m) (sockets m) (calls m) (tried m) (reconnects m).
Definition set_localStorage (v : option string) (m : Machine) : Machine :=
  mkMachine (socket m) (username m) (reconnectAttempts m) (currentServerIndex m)
            v (sockets m) (calls m) (tried m) (reconnects m).
Definition set_sockets (v : list Sock) (m : Machine) : Machine :=
  mkMachine (socket m) (username m) (reconnectAttempts m) (currentServerIndex m)
            (localStorage m) v (calls m) (tried m) (reconnects m).
Definition set_calls (v : list Call) (m : Machine) : Machine :=
  mkMachine (socket m) (username m) (reconnectAttempts m) (currentServerIndex m)
            (localStorage m) (sockets m) v (tried m) (reconnects m).
Definition set_tried (v : list (nat * nat)) (m : Machine) : Machine :=
  mkMachine (socket m) (username m) (reconnectAttempts m) (currentServerIndex m)
            (localStorage m) (sockets m) (calls m) v (reconnects m).
Definition set_reconnects (v : nat) (m : Machine) : Machine :=
  mkMachine (socket m) (username m) (reconnectAttempts m) (currentServerIndex m)
            (localStorage m) (sockets m) (calls m) (tried m) v.

(** [this.socket && this.socket.connected]. *)
Definition socket_connected (m : Machine) : bool :=
  match socket m with
  | Some s => match sockets m !! s with
              | Some k => connected k
              | None => false
              end
  | None => false
  end.

(** [resolve(v)]: a promise settles once. *)
Definition settle_call (v : Settled) (c : Call) : Call :=
  match outcome c with
  | Pending => mkCall v (timer c) (followers c)
  | _ => c
  end.

(** [clearTimeout(connectTimeout)]. *)
Definition clear_call (c : Call) : Call :=
  match timer c with
  | Armed => mkCall (outcome c) Cleared (followers c)
  | _ => c
  end.

Definition fire_call (c : Call) : Call := mkCall (outcome c) Fired (followers c).

(** [socket.disconnect(); socket.removeAllListeners()] of [tryConnect]. *)
Definition cleanup_sock (k : Sock) : Sock :=
  mkSock (server k) false true false (call k).

(** [socket.disconnect()] of [disconnect()]: the handlers stay. *)
Definition close_sock (k : Sock) : Sock :=
  mkSock (server k) false true (listening k) (call k).

Definition flag_sock (v : bool) (k : Sock) : Sock :=
  mkSock (server k) v (closed k) (listening k) (call k).

(** The promise [q] and those that follow it. *)
Definition chain_of (q : nat) (m : Machine) : list nat :=
  match calls m !! q with
  | Some c => q :: followers c
  | None => [q]
  end.

(** [resolve(v)] on the head of a chain reaches every promise of it. *)
Definition settle_all (chain : list nat) (v : Settled) (m : Machine) : Machine :=
  set_calls (foldr (fun q cs => alter (settle_call v) q cs) (calls m) chain) m.

Definition clearTimeout (q : nat) (m : Machine) : Machine :=
  set_calls (alter clear_call q (calls m)) m.

Inductive Event :=
| Connect (u : string)        (* socketService.connect(u) *)
| Disconnect                  (* socketService.disconnect() *)
| OnConnect (s : nat)         (* socket s fires "connect" *)
| OnConnectError (s : nat)    (* socket s fires "connect_error" *)
| OnDisconnect (s : nat)      (* socket s is dropped by the server *)
| OnTimeout (q : nat)         (* the connectTimeout of call q fires *)
| OnReconnect.                (* a two-second reconnection timer fires *)

Section Connection.

(** [io_throws n]: the [n]-th call of [io] throws. *)
Variable io_throws : nat -> bool.

(** [tryConnect(serverIndex)] called for the promises [chain] that wait for
    it.  When [io] throws, the [catch] calls [tryNextServer], which calls
    [tryConnect] again unless the ceiling is reached; each such call counts
    one more attempt, so the recursion is at most [ceiling] deep, which is
    what [fuel] bounds. *)
Fixpoint tryConnect_go (fuel : nat) (serverIndex : nat) (chain : list nat)
    (m : Machine) : Machine :=
  let m := set_currentServerIndex serverIndex m in
  let q := length (calls m) in
  let m := match socket m with
           | Some s => set_sockets (alter cleanup_sock s (sockets m)) m
           | None => m
           end in
  let n := length (tried m) in
  let m := set_tried (tried m ++ [(q, serverIndex)]) m in
  if io_throws n then
    let m := set_calls (calls m ++ [mkCall Pending NoTimer chain]) m in
    (* catch: this.tryNextServer(resolve) *)
    let m := set_reconnectAttempts (S (reconnectAttempts m)) m in
    let next := (currentServerIndex m + 1) mod length SERVER_OPTIONS in
    if decide (ceiling <= reconnectAttempts m) then
      settle_all (q :: chain) (Resolved false) m
    else
      match fuel with
      | 0 => m
      | S fuel' => tryConnect_go fuel' next (q :: chain) m
      end
  else
    let s := length (sockets m) in
    set_calls (calls m ++ [mkCall Pending Armed chain])
      (set_socket (Some s)
         (set_sockets (sockets m ++ [mkSock serverIndex false false true q]) m)).

Definition tryConnect (serverIndex : nat) (chain : list nat) (m : Machine)
  : Machine :=
  tryConnect_go ceiling serverIndex chain m.

(** [tryNextServer(resolve)], [resolve] being that of the head of [chain]. *)
Definition tryNextServer (chain : list nat) (m : Machine) : Machine :=
  let m := set_reconnectAttempts (S (reconnectAttempts m)) m in
  let next := (currentServerIndex m + 1) mod length SERVER_OPTIONS in
  if decide (ceiling <= reconnectAttempts m) then
    settle_all chain (Resolved false) m
  else tryConnect next chain m.

(** [connect(username)]; the promise it returns is the one numbered
    [length (calls m)]. *)
Definition connect (u : string) (m : Machine) : Machine :=
  let m := set_localStorage (Some u) (set_username (Some u) m) in
  if socket_connected m then
    set_calls (calls m ++ [mkCall (Resolved true) NoTimer []]) m
  else tryConnect 0 [] m.

(** [disconnect()]. *)
Definition disconnect (m : Machine) : Machine :=
  match socket m with
  | Some s =>
      set_username None
        (set_socket None (set_sockets (alter close_sock s (sockets m)) m))
  | None => m
  end.

(** The ["connect"] handler. *)
Definition on_connect (s : nat) (m : Machine) : Machine :=
  match sockets m !! s with
  | Some k =>
      if negb (listening k) || connected k || closed k then m else
      let m := set_sockets (alter (flag_sock true) s (sockets m)) m in
      let m := clearTimeout (call k) m in
      let m := set_reconnectAttempts 0 m in
      settle_all (chain_of (call k) m) (Resolved true) m
  | None => m
  end.

(** The ["connect_error"] handler. *)
Definition on_connect_error (s : nat) (m : Machine) : Machine :=
  match sockets m !! s with
  | Some k =>
      if negb (listening k) || connected k || closed k then m else
      let m := clearTimeout (call k) m in
      tryNextServer (chain_of (call k) m) m
  | None => m
  end.

(** The ["disconnect"] handler when the reason is not the client's own
    [disconnect()]: it sets a two-second timer. *)
Definition on_disconnect (s : nat) (m : Machine) : Machine :=
  match sockets m !! s with
  | Some k =>
      if listening k && connected k then
        set_reconnects (S (reconnects m))
          (set_sockets (alter (flag_sock false) s (sockets m)) m)
      else m
  | None => m
  end.

(** The callback of that timer:
    [if (this.username) this.tryConnect(this.currentServerIndex)]. *)
Definition on_reconnect (m : Machine) : Machine :=
  match reconnects m with
  | 0 => m
  | S n =>
      let m := set_reconnects n m in
      if truthy_name (username m) then tryConnect (currentServerIndex m) [] m
      else m
  end.

(** The callback of [connectTimeout] of call [q], 6000 ms after the call. *)
Definition on_timeout (q : nat) (m : Machine) : Machine :=
  match calls m !! q with
  | Some c =>
      match timer c with
      | Armed =>
          let m := set_calls (alter fire_call q (calls m)) m in
          match socket m with
          | Some s =>
              if socket_connected m then m
              else tryNextServer (chain_of q m) m
          | None => m
          end
      | _ => m
      end
  | None => m
  end.

Definition step (m : Machine) (e : Event) : Machine :=
  match e with
  | Connect u => connect u m
  | Disconnect => disconnect m
  | OnConnect s => on_connect s m
  | OnConnectError s => on_connect_error s m
  | OnDisconnect s => on_disconnect s m
  | OnTimeout q => on_timeout q m
  | OnReconnect => on_reconnect m
  end.

Definition run (m : Machine) (es : list Event) : Machine := foldl step m es.

Inductive reachable : Machine -> Prop :=
| reach_init stored : reachable (set_localStorage stored init_machine)
| reach_step m e : reachable m -> reachable (step m e).

(** The attempt on the current socket fails, by ["connect_error"] or, when
    [by_timeout], by the timeout of its call. *)
Definition fail_current (by_timeout : bool) (m : Machine) : Machine :=
  match socket m with
  | Some s =>
      match sockets m !! s with
      | Some k => if by_timeout then step m (OnTimeout (call k))
                  else step m (OnConnectError s)
      | None => m
      end
  | None => m
  end.

End Connection.

Definition outcome_of (p : nat) (m : Machine) : Settled :=
  match calls m !! p with
  | Some c => outcome c
  | None => Pending
  end.

(** The server indices of the [io] calls, in the order they were made. *)
Definition servers_tried (m : Machine) : list nat := (tried m).*2.

(** Three passes over the three servers. *)
Definition passes : list nat := [0; 1; 2; 0; 1; 2; 0; 1; 2].

(** The counter is [a] and the attempt on server [i] is under way for
    promise [p], which is pending: the current socket is open, listens and
    is not connected, the timer of its call is armed, and [p] is that call's
    promise or one that follows it. *)
Definition attempting (p a i : nat) (m : Machine) : Prop :=
  reconnectAttempts m = a /\
  currentServerIndex m = i /\
  (exists cp, calls m !! p = Some cp /\ outcome cp = Pending) /\
  exists s q c,
    socket m = Some s /\
    sockets m !! s = Some (mkSock i false false true q) /\
    calls m !! q = Some c /\ timer c = Armed /\ p ∈ q :: followers c.

(** No promise is rejected. *)
Definition none_rejected (cs : list Call) : Prop :=
  Forall (fun c => outcome c <> Rejected) cs.

End Rotation.

(** * Properties *)

(** ** Arrays *)

Lemma get_lookup (b : list cell) (i : nat) (c : cell) :
  b !! i = Some c -> get b i = c.
Proof. unfold get. intros ->. reflexivity. Qed.

Lemma get_past_end (b : list cell) (i : nat) :
  length b <= i -> get b i = Undefined.
Proof. intros H. unfold get. rewrite lookup_ge_None_2; [reflexivity | lia]. Qed.

(** Reading after a write: the written slot holds the new value, every other
    slot reads as before, inside the array and past its end alike. *)
Lemma get_js_set (b : list cell) (i j : nat) (v : cell) :
  get (js_set b i v) j = if decide (j = i) then v else get b j.
Proof.
  unfold js_set. destruct (decide (i < length b)) as [Hin | Hout].
  - destruct (decide (j = i)) as [-> | Hne].
    + apply get_lookup. by apply list_lookup_insert_eq.
    + unfold get. by rewrite list_lookup_insert_ne.
  - destruct (decide (j = i)) as [-> | Hne].
    + apply get_lookup. rewrite lookup_app_r by lia.
      rewrite lookup_app_r by (rewrite length_replicate; lia).
      rewrite length_replicate.
      by replace (i - length b - (i - length b)) with 0 by lia.
    + destruct (decide (j < length b)) as [Hj | Hj].
      * unfold get. by rewrite lookup_app_l.
      * rewrite (get_past_end b j) by lia.
        destruct (decide (j < i)) as [Hlt | Hge].
        -- apply get_lookup. rewrite lookup_app_r by lia.
           rewrite lookup_app_l by (rewrite length_replicate; lia).
           apply lookup_replicate_2. lia.
        -- apply get_past_end.
           rewrite !length_app, length_replicate. simpl. lia.
Qed.

(** [arr.every(cell => cell !== null)] says that no index reads as [null]. *)
Lemma every_not_null (b : list cell) :
  forallb not_null b = true <-> forall i, get b i <> Null.
Proof.
  rewrite forallb_forall. split.
  - intros H i. destruct (b !! i) as [c |] eqn:E.
    + rewrite (get_lookup _ _ _ E). intros ->.
      assert (Hin : In Null b).
      { apply list_elem_of_In. eapply list_elem_of_lookup_2. exact E. }
      specialize (H _ Hin). discriminate.
    + unfold get. rewrite E. discriminate.
  - intros H c Hin. apply list_elem_of_In in Hin.
    apply list_elem_of_lookup_1 in Hin as [i Hi].
    specialize (H i). rewrite (get_lookup _ _ _ Hi) in H.
    destruct c; [congruence | reflexivity | reflexivity].
Qed.

(** ** checkWinner *)

Lemma mark_truthy (m : Mark) : truthy (Str (mark_str m)) = true.
Proof. by destruct m. Qed.

Lemma line_index_bound (line : list nat) (i : nat) :
  line ∈ lines -> i ∈ line -> i < 9.
Proof.
  unfold lines. intros Hl Hi.
  repeat (apply elem_of_cons in Hl as [-> | Hl];
          [repeat (apply elem_of_cons in Hi as [-> | Hi]; [lia |]);
           by apply elem_of_nil in Hi |]).
  by apply elem_of_nil in Hl.
Qed.

Lemma line_shape (line : list nat) :
  line ∈ lines -> exists a1 a2 a3, line = [a1; a2; a3].
Proof.
  unfold lines. intros Hl.
  repeat (apply elem_of_cons in Hl as [-> | Hl]; [by eauto |]).
  by apply elem_of_nil in Hl.
Qed.

(** On a board of the right shape the loop test holds exactly for the lines
    fully occupied by one mark. *)
Lemma line_hit_won (b : list cell) (line : list nat) :
  cells_ok b -> line ∈ lines ->
  line_hit b line = true <-> line_won b line.
Proof.
  intros Hok Hl. destruct (line_shape _ Hl) as (a1 & a2 & a3 & ->).
  unfold line_hit, line_won, strict_eq. split.
  - intros H. apply andb_prop in H as [H H3]. apply andb_prop in H as [H1 H2].
    apply bool_decide_eq_true in H2, H3.
    assert (Hb : a1 < 9) by (eapply line_index_bound; [exact Hl | apply list_elem_of_here]).
    specialize (Hok a1). rewrite decide_True in Hok by exact Hb.
    destruct Hok as [E | [m E]].
    + rewrite E in H1. discriminate.
    + exists m. repeat constructor; congruence.
  - intros [m Hm].
    apply Forall_cons in Hm as [E1 Hm]. apply Forall_cons in Hm as [E2 Hm].
    apply Forall_cons in Hm as [E3 _].
    rewrite E1, E2, E3, mark_truthy. simpl.
    by rewrite bool_decide_eq_true_2.
Qed.

(** [checkWinner] returns a line exactly when some line is won. *)
Lemma checkWinner_is_Some (b : list cell) :
  cells_ok b -> is_Some (checkWinner b) <-> winning_line_exists b.
Proof.
  intros Hok. unfold checkWinner, winning_line_exists. split.
  - intros [line E]. apply find_some in E as [Hin Hhit].
    apply list_elem_of_In in Hin. exists line. split; [exact Hin |].
    by apply line_hit_won.
  - intros (line & Hin & Hwon).
    destruct (find (line_hit b) lines) as [l |] eqn:E; [by eexists |].
    apply line_hit_won in Hwon; [| exact Hok | exact Hin].
    apply list_elem_of_In in Hin.
    pose proof (find_none _ _ E _ Hin) as Hf. congruence.
Qed.

(** What [checkWinner] returns is one of the eight lines, and the first one
    in their order that passes the test. *)
Lemma checkWinner_first (b : list cell) (line : list nat) :
  checkWinner b = Some line ->
  exists before after,
    lines = (before ++ line :: after)%list /\ line_hit b line = true /\
    Forall (fun l => line_hit b l = false) before.
Proof.
  unfold checkWinner. generalize lines. intros ls. induction ls as [| l ls IH].
  - discriminate.
  - simpl. destruct (line_hit b l) eqn:E.
    + intros [= <-]. exists [], ls. by repeat split.
    + intros H. destruct (IH H) as (bf & af & -> & Hh & Hbf).
      exists (l :: bf), af. repeat split; [exact Hh | by constructor].
Qed.

(** ** Offline moves *)

Lemma cells_ok_set (b : list cell) (i : nat) (m : Mark) :
  cells_ok b -> cells_ok (js_set b i (Str (mark_str m))).
Proof.
  intros Hok j. specialize (Hok j). rewrite get_js_set.
  destruct (decide (j = i)) as [-> | Hne]; [| exact Hok].
  destruct (decide (i < 9)); [right; by exists m | discriminate].
Qed.

Lemma all_nine_filled_every (b : list cell) :
  cells_ok b -> all_nine_filled b <-> forallb not_null b = true.
Proof.
  intros Hok. rewrite every_not_null. unfold all_nine_filled. split.
  - intros H i. specialize (Hok i). destruct (decide (i < 9)); auto.
  - intros H i _. apply H.
Qed.

Lemma startGame_ok (ps : Players) : game_ok (startGame ps).
Proof.
  split.
  - intros i. change (board (startGame ps)) with (replicate 9 Null).
    destruct (decide (i < 9)) as [Hi | Hi].
    + left. apply get_lookup. by apply lookup_replicate_2.
    + rewrite get_past_end; [discriminate |].
      rewrite length_replicate. lia.
  - unfold gameOver_spec.
    change (board (startGame ps)) with (replicate 9 Null).
    change (gameOver (startGame ps)) with false.
    split; [discriminate |].
    intros [(line & Hin & m & Hm) | Hfull].
    + destruct (line_shape _ Hin) as (a1 & a2 & a3 & ->).
      apply Forall_cons in Hm as [E _].
      assert (Hb : a1 < 9)
        by (eapply line_index_bound; [exact Hin | apply list_elem_of_here]).
      rewrite (get_lookup _ _ Null) in E; [discriminate |].
      by apply lookup_replicate_2.
    + exfalso. apply (Hfull 0); [lia | reflexivity].
Qed.

(** An accepted move hands [setGameState] a state of the right shape whose
    [gameOver] is as the specification says. *)
Lemma offlineMove_ok (gs gs' : GameState) (index : nat) (bot : option (list cell)) :
  cells_ok (board gs) ->
  offlineMove gs index = Some (gs', bot) ->
  game_ok gs'.
Proof.
  intros Hok. unfold offlineMove.
  destruct (truthy (get (board gs) index) || gameOver gs); [discriminate |].
  intros [= <- _].
  set (nb := js_set (board gs) index (Str (mark_str (currentTurn gs)))).
  assert (Hnb : cells_ok nb) by (by apply cells_ok_set).
  split; [exact Hnb |].
  unfold gameOver_spec. simpl. fold nb.
  rewrite <- (checkWinner_is_Some nb Hnb), (all_nine_filled_every nb Hnb).
  destruct (checkWinner nb) as [l |] eqn:E.
  - rewrite bool_decide_eq_true_2 by (by eexists). simpl.
    split; [intros _; left; by eexists | reflexivity].
  - rewrite bool_decide_eq_false_2 by (intros [? ?]; discriminate). simpl.
    split; [intros ->; by right | intros [[? ?] | H]; [discriminate | exact H]].
Qed.

(** An accepted move writes the mover's mark at [index] and changes no other
    cell. *)
Lemma offlineMove_board (gs gs' : GameState) (index : nat) (bot : option (list cell)) :
  offlineMove gs index = Some (gs', bot) ->
  forall j, get (board gs') j =
            if decide (j = index) then Str (mark_str (currentTurn gs))
            else get (board gs) j.
Proof.
  unfold offlineMove.
  destruct (truthy (get (board gs) index) || gameOver gs); [discriminate |].
  intros [= <- _] j. simpl. apply get_js_set.
Qed.

Lemma makeMove_state_ok (w : World) (index : nat) :
  state_ok w -> state_ok (makeMove w index).
Proof.
  intros (Hoff & gs & Hgs & Hok). unfold makeMove. rewrite Hoff, Hgs.
  destruct (offlineMove gs index) as [[gs' bot] |] eqn:E.
  - pose proof (offlineMove_ok _ _ _ _ (proj1 Hok) E) as Hok'.
    destruct bot as [nb |]; (split; [exact Hoff | by exists gs']).
  - split; [exact Hoff | by exists gs].
Qed.

Lemma moves_state_ok (w : World) (moves : list nat) :
  state_ok w -> state_ok (foldl makeMove w moves).
Proof.
  revert w. induction moves as [| i moves IH]; intros w Hw; [exact Hw |].
  simpl. apply IH. by apply makeMove_state_ok.
Qed.

Lemma makeMove_timers (w : World) (index : nat) :
  state_ok w ->
  botTimers (makeMove w index) = botTimers w \/
  exists gs nb, gameState w = Some gs /\
    botTimers (makeMove w index) = (botTimers w ++ [mkBotTimer gs nb])%list.
Proof.
  intros (Hoff & gs & Hgs & Hok). unfold makeMove. rewrite Hoff, Hgs.
  destruct (offlineMove gs index) as [[gs' [nb |]] |]; [| by left | by left].
  right. by exists gs, nb.
Qed.

Lemma makeMove_world_ok (w : World) (index : nat) :
  world_ok w -> world_ok (makeMove w index).
Proof.
  intros [Hst Htm]. split; [by apply makeMove_state_ok |].
  destruct (makeMove_timers w index Hst) as [-> | (gs & nb & Hgs & ->)];
    [exact Htm |].
  apply Forall_app. split; [exact Htm |].
  destruct Hst as (_ & gs0 & Hgs0 & Hok). rewrite Hgs in Hgs0.
  injection Hgs0 as <-. constructor; [exact (proj1 Hok) | constructor].
Qed.

Lemma botFire_world_ok (w : World) (k r : nat) :
  world_ok w -> world_ok (botFire w k r).
Proof.
  intros [(Hoff & gs & Hgs & Hok) Htm]. unfold botFire.
  destruct (botTimers w !! k) as [t |] eqn:Ek;
    [| split; [split; [exact Hoff | by exists gs] | exact Htm]].
  assert (Ht : cells_ok (board (seen t))).
  { rewrite Forall_forall in Htm. apply Htm.
    eapply list_elem_of_lookup_2. exact Ek. }
  assert (Hdel : Forall (fun t => cells_ok (board (seen t))) (delete k (botTimers w)))
    by (by apply Forall_delete).
  destruct (emptyCells (captured t) !! r) as [index |];
    [| split; [split; [exact Hoff | by exists gs] | exact Hdel]].
  destruct (offlineMove (seen t) index) as [[gs' bot] |] eqn:E;
    [| split; [split; [exact Hoff | by exists gs] | exact Hdel]].
  pose proof (offlineMove_ok _ _ _ _ Ht E) as Hok'.
  destruct bot as [nb |]; (split; [split; [exact Hoff | by exists gs'] |]);
    simpl; [| exact Hdel].
  apply Forall_app. split; [exact Hdel |].
  constructor; [exact Ht | constructor].
Qed.

(** The same holds when the bot's delayed answers are interleaved with the
    user's moves, although each answer is computed from the state its timer
    saw. *)
Lemma plays_world_ok (w : World) (ps : list Play) :
  world_ok w -> world_ok (foldl play w ps).
Proof.
  revert w. induction ps as [| a ps IH]; intros w Hw; [exact Hw |].
  simpl. apply IH. destruct a; [by apply makeMove_world_ok | by apply botFire_world_ok].
Qed.

(** The same with the bot's delayed answers interleaved, from a start with no
    timer pending. *)
Lemma plays_gameOver_iff (w0 : World) (ps : Players) (acts : list Play) :
  isOfflineMode w0 = true ->
  gameState w0 = Some (startGame ps) ->
  botTimers w0 = [] ->
  exists gs,
    gameState (foldl play w0 acts) = Some gs /\
    (gameOver gs = true <->
     winning_line_exists (board gs) \/ all_nine_filled (board gs)).
Proof.
  intros Hoff Hgs Htm.
  assert (Hw0 : world_ok w0).
  { split; [| rewrite Htm; constructor]. split; [exact Hoff |].
    exists (startGame ps). split; [exact Hgs | apply startGame_ok]. }
  destruct (plays_world_ok w0 acts Hw0) as [(_ & gs & Hg & _ & Hspec) _].
  exists gs. split; [exact Hg | exact Hspec].
Qed.

(** C1: in offline mode, after any sequence of [makeMove] calls from the
    initial game state, [gameOver] is true if and only if one of the eight
    fixed lines is fully occupied by one mark or all 9 cells are non-empty. *)
Theorem makeMove_gameOver_iff (w0 : World) (ps : Players) (moves : list nat) :
  isOfflineMode w0 = true ->
  gameState w0 = Some (startGame ps) ->
  exists gs,
    gameState (foldl makeMove w0 moves) = Some gs /\
    (gameOver gs = true <->
     winning_line_exists (board gs) \/ all_nine_filled (board gs)).
Proof.
  intros Hoff Hgs.
  assert (Hw0 : state_ok w0).
  { split; [exact Hoff |]. exists (startGame ps).
    split; [exact Hgs | apply startGame_ok]. }
  destruct (moves_state_ok w0 moves Hw0) as (_ & gs & Hg & _ & Hspec).
  exists gs. split; [exact Hg | exact Hspec].
Qed.

Lemma makeMove_gameOver_iff_witness :
  isOfflineMode sample_world = true /\
  gameState sample_world = Some (startGame sample_players) /\
  exists gs,
    gameState (foldl makeMove sample_world [0; 3; 1; 4; 2]) = Some gs /\
    (gameOver gs = true <->
     winning_line_exists (board gs) \/ all_nine_filled (board gs)).
Proof.
  split; [reflexivity |]. split; [reflexivity |].
  apply (makeMove_gameOver_iff sample_world sample_players [0; 3; 1; 4; 2]);
    reflexivity.
Defined.

(** C2: in offline mode, a [makeMove] on an occupied cell, or when
    [gameOver] is true, leaves the whole state as it was: board, turn,
    [gameOver], winner, winning combination and players, and also everything
    else the provider holds (no timer is set, nothing is emitted). *)
Theorem makeMove_rejected_noop (w : World) (gs : GameState) (index : nat) :
  isOfflineMode w = true ->
  gameState w = Some gs ->
  occupied (get (board gs) index) \/ gameOver gs = true ->
  makeMove w index = w.
Proof.
  intros Hoff Hgs Hguard. unfold makeMove, offlineMove. rewrite Hoff, Hgs.
  destruct Hguard as [Hocc | Hover].
  - unfold occupied in Hocc. by rewrite Hocc.
  - rewrite Hover. by rewrite orb_true_r.
Qed.

Lemma makeMove_rejected_noop_witness :
  (occupied (get (board won_state) 0) \/ gameOver won_state = true) /\
  makeMove (set_gameState (Some won_state) sample_world) 0
  = set_gameState (Some won_state) sample_world.
Proof.
  split; [left; reflexivity |].
  apply (makeMove_rejected_noop _ won_state 0);
    [reflexivity | reflexivity | left; reflexivity].
Defined.

(** During play the scenario's board is never that of a finished game. *)
Lemma scenario_not_over (gs : GameState) :
  gameOver_spec gs -> board gs = scenario_board -> gameOver gs = false.
Proof.
  intros Hspec Hb. destruct (gameOver gs) eqn:E; [| reflexivity].
  exfalso. destruct (proj1 Hspec E) as [(line & Hin & m & Hm) | Hfull].
  - rewrite Hb in Hm. unfold lines in Hin.
    repeat (apply elem_of_cons in Hin as [-> | Hin];
            [repeat (apply Forall_cons in Hm as [? Hm]); by destruct m |]).
    by apply elem_of_nil in Hin.
  - rewrite Hb in Hfull. apply (Hfull 2); [lia | reflexivity].
Qed.

(** C9: from the board [[X,X,null,O,O,null,null,null,null]] with X to move
    (a game in progress), [makeMove(2)] gives [winner] = the display name of
    player X, [winningCombination] = [[0,1,2]] and [gameOver] = true. *)
Theorem scenario_X_plays_2 (w : World) (gs : GameState) :
  isOfflineMode w = true ->
  gameState w = Some gs ->
  board gs = scenario_board ->
  currentTurn gs = MarkX ->
  gameOver gs = false ->
  exists gs',
    gameState (makeMove w 2) = Some gs' /\
    winner gs' = playerX (players gs) /\
    winningCombination gs' = Some [0; 1; 2] /\
    gameOver gs' = true.
Proof.
  intros Hoff Hgs Hb Ht Hover. unfold makeMove, offlineMove.
  rewrite Hoff, Hgs, Hb, Ht, Hover. simpl.
  eexists. split; [reflexivity |]. simpl. by repeat split.
Qed.

Lemma scenario_X_plays_2_witness :
  board scenario_state = scenario_board /\
  currentTurn scenario_state = MarkX /\
  gameOver scenario_state = false /\
  exists gs',
    gameState (makeMove (set_gameState (Some scenario_state) sample_world) 2)
    = Some gs' /\
    winner gs' = playerX (players scenario_state) /\
    winningCombination gs' = Some [0; 1; 2] /\
    gameOver gs' = true.
Proof.
  split; [reflexivity |]. split; [reflexivity |]. split; [reflexivity |].
  apply (scenario_X_plays_2 _ scenario_state); reflexivity.
Defined.

(** C10: in offline mode [restartGame] sets the board to nine empty cells,
    the turn to X, [gameOver] to false, the winner and the winning
    combination to null, and keeps the players of the state it replaces. *)
Theorem restartGame_resets (w : World) (gs : GameState) (uid : string) (now : nat) :
  isOfflineMode w = true ->
  gameState w = Some gs ->
  gameState (restartGame w uid now)
  = Some {| board := replicate 9 Null;
            currentTurn := MarkX;
            gameOver := false;
            winner := None;
            winningCombination := None;
            players := players gs |}.
Proof.
  intros Hoff Hgs. unfold restartGame. rewrite Hoff, Hgs. reflexivity.
Qed.

Lemma restartGame_resets_witness :
  isOfflineMode (set_gameState (Some won_state) sample_world) = true /\
  gameState (restartGame (set_gameState (Some won_state) sample_world) "id-1" 7)
  = Some {| board := replicate 9 Null;
            currentTurn := MarkX;
            gameOver := false;
            winner := None;
            winningCombination := None;
            players := players won_state |}.
Proof.
  split; [reflexivity |].
  apply (restartGame_resets _ won_state "id-1" 7); reflexivity.
Defined.

(** ** Rooms *)

Lemma find_room_None (id : string) (rs : list Room) :
  find_room id rs = None <-> id ∉ room_id <$> rs.
Proof.
  unfold find_room. induction rs as [| r rs IH]; simpl.
  - split; [intros _; apply not_elem_of_nil | reflexivity].
  - rewrite not_elem_of_cons. destruct (String.eqb_spec (room_id r) id) as [E | E].
    + split; [discriminate | intros [Hne _]; congruence].
    + rewrite IH. split; [intros H; split; [congruence | exact H] | by intros [_ H]].
Qed.

(** When identifiers are not repeated, [find] gives the room that carries
    the identifier. *)
Lemma find_room_unique (r : Room) (rs : list Room) :
  NoDup (room_id <$> rs) -> r ∈ rs -> find_room (room_id r) rs = Some r.
Proof.
  unfold find_room. induction rs as [| r0 rs IH]; intros Hnd Hin.
  - by apply elem_of_nil in Hin.
  - rewrite fmap_cons in Hnd. apply NoDup_cons in Hnd as [Hfresh Hnd]. simpl.
    apply elem_of_cons in Hin as [-> | Hin]; [by rewrite String.eqb_refl |].
    destruct (String.eqb_spec (room_id r0) (room_id r)) as [E | _];
      [| by apply IH].
    exfalso. apply Hfresh. rewrite E. by apply list_elem_of_fmap_2.
Qed.

(** C8: in offline mode, joining the room that an identifier designates when
    it already has 2 occupants is rejected with "Room is full", and joining
    with an identifier that no room of the list carries is rejected with
    "Room not found"; either way nothing changes, so the room's entry in the
    list is as before.  The room designated is the first one [find] gives,
    which is the room carrying the identifier when identifiers are not
    repeated. *)
Theorem joinRoom_rejections (w : World) (id uid : string) (now : nat) :
  isOfflineMode w = true ->
  (forall r, find_room id (rooms w) = Some r -> 2 <= length (room_players r) ->
             joinRoom w id uid now = (w, RetRejected "Room is full")) /\
  (forall r, NoDup (room_id <$> rooms w) -> r ∈ rooms w -> room_id r = id ->
             length (room_players r) = 2 ->
             joinRoom w id uid now = (w, RetRejected "Room is full")) /\
  (id ∉ room_id <$> rooms w ->
   joinRoom w id uid now = (w, RetRejected "Room not found")).
Proof.
  intros Hoff. unfold joinRoom. rewrite Hoff. split; [| split].
  - intros r Hr Hlen. rewrite Hr. by rewrite decide_True.
  - intros r Hnd Hin <- Hlen. rewrite (find_room_unique r _ Hnd Hin).
    rewrite decide_True; [reflexivity | lia].
  - intros Hnot. apply find_room_None in Hnot. by rewrite Hnot.
Qed.

Lemma joinRoom_rejections_witness :
  isOfflineMode sample_world = true /\
  (find_room "demo-room-2" (rooms sample_world)
   = Some (mkRoom "demo-room-2" "Quick Match" ["Player2"; "Player3"] 1 false) /\
   joinRoom sample_world "demo-room-2" "id-1" 7
   = (sample_world, RetRejected "Room is full")) /\
  joinRoom sample_world "no-such-room" "id-1" 7
  = (sample_world, RetRejected "Room not found").
Proof.
  destruct (joinRoom_rejections sample_world "demo-room-2" "id-1" 7 eq_refl)
    as (Hfull & _ & _).
  destruct (joinRoom_rejections sample_world "no-such-room" "id-1" 7 eq_refl)
    as (_ & _ & Hmissing).
  split; [reflexivity |]. split.
  - split; [reflexivity |]. apply (Hfull _ eq_refl). simpl. lia.
  - apply Hmissing. apply find_room_None. reflexivity.
Defined.

(** ** Logging out *)

(** C7: logging out removes the stored display name and empties the session:
    the username and the current room become null, the game state null, the
    room list and the message log empty; the service holds no socket any
    more, and the effect that reads the stored name finds none to restore. *)
Theorem handleLogout_clears (w : World) :
  let w' := handleLogout w in
  localStorage (machine w') = None /\
  username w' = None /\
  currentRoom w' = None /\
  gameState w' = None /\
  rooms w' = [] /\
  messages w' = [] /\
  isOfflineMode w' = false /\
  socket (machine w') = None /\
  storedNameEffect w' = w'.
Proof.
  unfold handleLogout, disconnectFromServer, disconnect. simpl.
  destruct (socket (machine w)) eqn:E; simpl; by rewrite ?E.
Qed.

(** ** Action methods of the service without a socket *)

(** C5: with no socket, none of the seven action methods emits anything or
    changes the service; [leaveRoom], [makeMove], [restartGame] and
    [sendMessage] return normally, while [createRoom], [joinRoom] and
    [joinRandomGame] return a promise rejected with "Not connected". *)
Theorem actions_without_socket (m : Machine) (roomName roomId message : string)
    (isPriv : bool) (index : nat) :
  socket m = None ->
  svc_leaveRoom m = (m, RetVoid) /\
  svc_makeMove index m = (m, RetVoid) /\
  svc_restartGame m = (m, RetVoid) /\
  svc_sendMessage message m = (m, RetVoid) /\
  svc_createRoom roomName isPriv m = (m, RetRejected "Not connected") /\
  svc_joinRoom roomId m = (m, RetRejected "Not connected") /\
  svc_joinRandomGame m = (m, RetRejected "Not connected").
Proof.
  intros H.
  unfold svc_leaveRoom, svc_makeMove, svc_restartGame, svc_sendMessage,
    svc_createRoom, svc_joinRoom, svc_joinRandomGame.
  rewrite H. by repeat split.
Qed.

Lemma actions_without_socket_witness :
  socket init_machine = None /\
  svc_leaveRoom init_machine = (init_machine, RetVoid) /\
  svc_makeMove 4 init_machine = (init_machine, RetVoid) /\
  svc_restartGame init_machine = (init_machine, RetVoid) /\
  svc_sendMessage "hi" init_machine = (init_machine, RetVoid) /\
  svc_createRoom "Test" false init_machine
  = (init_machine, RetRejected "Not connected") /\
  svc_joinRoom "demo-room-1" init_machine
  = (init_machine, RetRejected "Not connected") /\
  svc_joinRandomGame init_machine = (init_machine, RetRejected "Not connected").
Proof.
  split; [reflexivity |].
  apply (actions_without_socket init_machine "Test" "demo-room-1" "hi" false 4).
  reflexivity.
Defined.

(** C5, as stated, fails: without a socket [createRoom] does fail, its
    promise is rejected. *)
Lemma createRoom_without_socket_fails :
  ~ (forall m roomName isPriv,
       socket m = None -> no_failure (svc_createRoom roomName isPriv m).2).
Proof.
  intros H. apply (H init_machine "Test" false eq_refl). by exists "Not connected".
Qed.

(** ** The connection manager *)

Ltac munfold :=
  unfold step, connect, disconnect, on_connect, on_connect_error, on_disconnect,
    on_timeout, connectToFallback, settle, clearTimeout, close_socket,
    mark_connected, socket_connected, set_socket, set_svc_username,
    set_reconnectAttempts, set_localStorage, set_sockets, set_calls,
    set_attempts, set_emitted in *.

Lemma call_outcome_alter_same (f : Call -> Call) (p q : nat) (cs : list Call) :
  (forall c, outcome (f c) = outcome c) ->
  call_outcome (alter f p cs) q = call_outcome cs q.
Proof.
  intros Hf. unfold call_outcome. rewrite list_lookup_alter.
  destruct (decide (p = q)) as [-> |]; [| reflexivity].
  destruct (cs !! q); simpl; [apply Hf | reflexivity].
Qed.

Lemma call_outcome_settle (v : Settled) (p q : nat) (cs : list Call) :
  call_outcome (alter (settle_call v) p cs) q = call_outcome cs q \/
  (q = p /\ call_outcome cs q = Pending /\
   call_outcome (alter (settle_call v) p cs) q = v).
Proof.
  unfold call_outcome. rewrite list_lookup_alter.
  destruct (decide (p = q)) as [-> |]; [| by left].
  destruct (cs !! q) as [[o t] |]; simpl; [| by left].
  destruct o; simpl; [right | left | left]; done.
Qed.

Lemma call_outcome_snoc (cs : list Call) (c : Call) (q : nat) :
  call_outcome (cs ++ [c]) q
  = if decide (q = length cs) then outcome c else call_outcome cs q.
Proof.
  unfold call_outcome. destruct (decide (q = length cs)) as [-> | Hne].
  - by rewrite list_lookup_middle.
  - destruct (decide (q < length cs)).
    + by rewrite lookup_app_l.
    + rewrite !lookup_ge_None_2; [reflexivity | lia |].
      rewrite length_app. simpl. lia.
Qed.

Lemma clear_call_outcome (c : Call) : outcome (clear_call c) = outcome c.
Proof. unfold clear_call. by destruct (timer c). Qed.

Lemma fire_call_outcome (c : Call) : outcome (fire_call c) = outcome c.
Proof. reflexivity. Qed.

(** The log of attempts grows by at most one entry per event: a primary
    attempt is added only by [connect], for the promise it makes, and a
    fallback attempt only on the error or the timeout of the primary. *)
Lemma step_attempts (io : nat -> bool) (m : Machine) (e : Event) :
  attempts (step io m e) = attempts m \/
  (exists u, e = Connect u /\ socket_connected m = false /\
     attempts (step io m e) = (attempts m ++ [(length (calls m), SOCKET_URL)])%list) \/
  (exists q, attempts (step io m e) = (attempts m ++ [(q, FALLBACK_URL)])%list /\
     (primary_error m e q \/ primary_timeout m e q)).
Proof.
  destruct e; munfold; simpl; repeat case_match; simpl in *; eauto.
  all: try (right; left; eexists; split; [reflexivity |];
            split; [congruence | reflexivity]).
  all: right; right; eexists; (split; [reflexivity |]).
  all: try (left; unfold primary_error; by eauto 10).
  all: right; unfold primary_timeout; by eauto.
Qed.

Ltac settle_cases :=
  match goal with
  | |- context [call_outcome (alter (settle_call ?v) ?p ?cs) ?q] =>
      let Hp := fresh "Hpending" in
      destruct (call_outcome_settle v p q cs) as [-> | (-> & Hp & ->)]
  end.

Lemma socket_connected_true (m : Machine) (n : nat) (k : Sock) :
  socket m = Some n -> sockets m !! n = Some k -> connected k = true ->
  socket_connected m = true.
Proof. intros H1 H2 H3. unfold socket_connected. by rewrite H1, H2. Qed.

Lemma socket_connected_false (m : Machine) :
  (socket m = None \/
   (exists n, socket m = Some n /\
      (sockets m !! n = None \/ exists k, sockets m !! n = Some k /\ connected k = false))) ->
  socket_connected m = false.
Proof.
  unfold socket_connected.
  intros [-> | (n & -> & [-> | (k & -> & H)])]; done.
Qed.

Lemma call_outcome_fresh (cs : list Call) (q : nat) :
  length cs <= q -> call_outcome cs q = Pending.
Proof. intros H. unfold call_outcome. by rewrite lookup_ge_None_2. Qed.

(** An event changes the state of a promise only if it is pending, and only
    in one of the ways listed by [settles]. *)
Lemma step_settles (io : nat -> bool) (m : Machine) (e : Event) (q : nat) :
  outcome_of q (step io m e) <> outcome_of q m ->
  outcome_of q m = Pending /\ settles io m e q (outcome_of q (step io m e)).
Proof.
  unfold outcome_of. destruct e; munfold; simpl; repeat case_match; simpl in *.
  all: try congruence.
  all: rewrite ?call_outcome_snoc.
  all: try case_decide; subst; simpl; try congruence.
  all: rewrite ?(call_outcome_fresh (calls m) (length (calls m))) by lia.
  all: try congruence.
  all: try settle_cases.
  all: rewrite ?call_outcome_alter_same in *
         by (apply clear_call_outcome || apply fire_call_outcome).
  all: try congruence.
  all: intros _; (split; [done |]).
  all: try (by econstructor; eauto).
  all: try (constructor; [| done]; apply socket_connected_false; by eauto 10).
  constructor. by eapply socket_connected_true.
Qed.


(** [connect] makes one promise; no other event makes or removes one. *)
Lemma step_calls_length (io : nat -> bool) (m : Machine) (e : Event) :
  length (calls (step io m e))
  = match e with Connect _ => S (length (calls m)) | _ => length (calls m) end.
Proof.
  destruct e; munfold; simpl; repeat case_match; simpl in *;
    rewrite ?length_app, ?length_alter; simpl; lia.
Qed.

Lemma sock_ids_alter (f : Sock -> Sock) (s : nat) (ks : list Sock) :
  (forall k, owner (f k) = owner k /\ url (f k) = url k) ->
  (fun k => (owner k, url k)) <$> alter f s ks = (fun k => (owner k, url k)) <$> ks.
Proof.
  intros Hf. rewrite (list_fmap_alter _ f id).
  - by apply list_alter_id.
  - apply Forall_forall. intros k _. by destruct (Hf k) as [-> ->].
Qed.

(** A socket is made together with the log entry of its attempt; nothing
    else changes which promise and URL a socket belongs to. *)
Lemma step_sock_ids (io : nat -> bool) (m : Machine) (e : Event) :
  sock_ids (step io m e) = sock_ids m \/
  exists a, sock_ids (step io m e) = (sock_ids m ++ [a])%list /\
            attempts (step io m e) = (attempts m ++ [a])%list.
Proof.
  unfold sock_ids.
  destruct e; munfold; simpl; repeat case_match; simpl in *.
  all: rewrite ?fmap_app, ?sock_ids_alter by done; simpl.
  all: eauto.
Qed.

Lemma armed_alter_settle (v : Settled) (p q : nat) (cs : list Call) (o : Settled) :
  alter (settle_call v) p cs !! q = Some (mkCall o Armed) ->
  exists o', cs !! q = Some (mkCall o' Armed).
Proof.
  rewrite list_lookup_alter. destruct (decide (p = q)) as [-> |]; [| by eauto].
  destruct (cs !! q) as [[o' t] |]; simpl; [| done].
  unfold settle_call. destruct o'; simpl; intros [= <- <-]; by eauto.
Qed.

Lemma armed_alter_clear (p q : nat) (cs : list Call) (o : Settled) :
  alter clear_call p cs !! q = Some (mkCall o Armed) ->
  cs !! q = Some (mkCall o Armed).
Proof.
  rewrite list_lookup_alter. destruct (decide (p = q)) as [-> |]; [| done].
  destruct (cs !! q) as [[o' t] |]; simpl; [| done].
  unfold clear_call. destruct t; simpl; intros [= <-]; done.
Qed.

Lemma armed_alter_fire (p q : nat) (cs : list Call) (o : Settled) :
  alter fire_call p cs !! q = Some (mkCall o Armed) ->
  cs !! q = Some (mkCall o Armed).
Proof.
  rewrite list_lookup_alter. destruct (decide (p = q)) as [-> |]; [| done].
  destruct (cs !! q) as [[o' t] |]; simpl; [| done]. discriminate.
Qed.

(** A timer is armed by [connect], together with the log entry of the
    primary attempt; no other event arms one. *)
Lemma step_armed (io : nat -> bool) (m : Machine) (e : Event) (p : nat) :
  armed (step io m e) p ->
  armed m p \/
  attempts (step io m e) = (attempts m ++ [(p, SOCKET_URL)])%list.
Proof.
  unfold armed. intros [o Ho]. revert Ho.
  destruct e; munfold; simpl; repeat case_match; simpl in *; intros Ho.
  all: repeat first
         [ apply armed_alter_settle in Ho as [? Ho]
         | apply armed_alter_clear in Ho
         | apply armed_alter_fire in Ho ].
  all: try (left; by eauto).
  all: apply lookup_snoc_Some in Ho as [[_ Ho] | [-> Ho]]; [left; by eauto |].
  all: try discriminate.
  all: by right.
Qed.

Lemma attempts_of_snoc (p q : nat) (u : Url) (m : Machine) (l : list (nat * Url)) :
  attempts m = (l ++ [(q, u)])%list ->
  attempts_of p m
  = ((filter (fun a => a.1 = p) l).*2 ++ (if decide (q = p) then [u] else []))%list.
Proof.
  intros E. unfold attempts_of. rewrite E, filter_app, fmap_app.
  rewrite filter_cons, filter_nil. simpl. by destruct (decide (q = p)).
Qed.

Lemma attempts_of_elem (p : nat) (u : Url) (m : Machine) :
  u ∈ attempts_of p m <-> (p, u) ∈ attempts m.
Proof.
  unfold attempts_of. rewrite list_elem_of_fmap. split.
  - intros ([q u'] & -> & H). apply list_elem_of_filter in H as [E H].
    simpl in E. by subst.
  - intros H. exists (p, u). split; [reflexivity |].
    apply list_elem_of_filter. by split.
Qed.

Lemma replicate_snoc (k : nat) (u : Url) :
  (replicate k u ++ [u])%list = replicate (S k) u.
Proof. induction k as [| k IH]; simpl; [reflexivity | by rewrite IH]. Qed.

Lemma machine_ok_init (stored : option string) :
  machine_ok (set_localStorage stored init_machine).
Proof.
  split; simpl.
  - intros q u H. by apply elem_of_nil in H.
  - intros q u H. by apply elem_of_nil in H.
  - intros p [o H]. simpl in H. by rewrite lookup_nil in H.
  - intros p. by left.
Qed.

Lemma machine_ok_step (io : nat -> bool) (m : Machine) (e : Event) :
  machine_ok m -> machine_ok (step io m e).
Proof.
  intros [Hcall Hsock Htimer Horder].
  assert (Hlen : length (calls m) <= length (calls (step io m e))).
  { rewrite step_calls_length. destruct e; lia. }
  assert (Hprim : forall q, primary_error m e q -> (q, SOCKET_URL) ∈ attempts m).
  { intros q (s & k & _ & Hk & Hu & Ho). apply Hsock. unfold sock_ids.
    apply list_elem_of_fmap. exists k. split; [by rewrite Ho, Hu |].
    eapply list_elem_of_lookup_2. exact Hk. }
  assert (Htime : forall q, primary_timeout m e q -> (q, SOCKET_URL) ∈ attempts m).
  { intros q [_ Ha]. by apply Htimer. }
  split.
  - (* every logged attempt serves a promise that exists *)
    intros q u H.
    destruct (step_attempts io m e) as [E | [(v & -> & _ & E) | (q' & E & Hc)]];
      rewrite E in H.
    + specialize (Hcall _ _ H). lia.
    + rewrite step_calls_length.
      apply elem_of_app in H as [H | H]; [specialize (Hcall _ _ H); lia |].
      apply list_elem_of_singleton in H. injection H as -> ->. lia.
    + apply elem_of_app in H as [H | H]; [specialize (Hcall _ _ H); lia |].
      apply list_elem_of_singleton in H. injection H as -> ->.
      destruct Hc as [Hc | Hc]; [apply Hprim in Hc | apply Htime in Hc];
        specialize (Hcall _ _ Hc); lia.
  - (* every socket has its log entry *)
    intros q u H.
    assert (Hpre : forall a, a ∈ attempts m -> a ∈ attempts (step io m e)).
    { intros a Ha.
      destruct (step_attempts io m e) as [E | [(v & _ & _ & E) | (q' & E & _)]];
        rewrite E; [done | |]; apply elem_of_app; by left. }
    destruct (step_sock_ids io m e) as [E | (a & E & Ea)]; rewrite E in H.
    + by apply Hpre, Hsock.
    + apply elem_of_app in H as [H | H]; [by apply Hpre, Hsock |].
      apply list_elem_of_singleton in H. subst a. rewrite Ea.
      apply elem_of_app. right. by apply list_elem_of_singleton.
  - (* every armed timer has the log entry of its primary attempt *)
    intros p H. destruct (step_armed io m e p H) as [Ha | E].
    + apply Htimer in Ha.
      destruct (step_attempts io m e) as [E | [(v & _ & _ & E) | (q' & E & _)]];
        rewrite E; [done | |]; apply elem_of_app; by left.
    + rewrite E. apply elem_of_app. right. by apply list_elem_of_singleton.
  - (* the attempts of each promise are in the declared order *)
    intros p.
    destruct (step_attempts io m e) as [E | [(v & -> & _ & E) | (q' & E & Hc)]].
    + unfold attempts_of. rewrite E. apply Horder.
    + rewrite (attempts_of_snoc p _ _ _ _ E). fold (attempts_of p m).
      destruct (decide (length (calls m) = p)) as [<- | Hne];
        [| rewrite app_nil_r; apply Horder].
      assert (Hnone : attempts_of (length (calls m)) m = []).
      { destruct (attempts_of (length (calls m)) m) as [| u us] eqn:Eu; [done |].
        assert (Hin : u ∈ attempts_of (length (calls m)) m)
          by (rewrite Eu; apply list_elem_of_here).
        apply attempts_of_elem in Hin. specialize (Hcall _ _ Hin). lia. }
      rewrite Hnone. right. by exists 0.
    + rewrite (attempts_of_snoc p _ _ _ _ E). fold (attempts_of p m).
      destruct (decide (q' = p)) as [-> | Hne];
        [| rewrite app_nil_r; apply Horder].
      assert (Hin : SOCKET_URL ∈ attempts_of p m).
      { apply attempts_of_elem.
        destruct Hc as [Hc | Hc]; [by apply Hprim | by apply Htime]. }
      destruct (Horder p) as [E0 | [k E0]]; rewrite E0 in *.
      * by apply elem_of_nil in Hin.
      * right. exists (S k). simpl. by rewrite replicate_snoc.
Qed.

Lemma reachable_ok (io : nat -> bool) (m : Machine) :
  reachable io m -> machine_ok m.
Proof.
  induction 1 as [stored | m e _ IH];
    [apply machine_ok_init | by apply machine_ok_step].
Qed.

Lemma step_attempts_grow (io : nat -> bool) (m : Machine) (e : Event) :
  exists ext, attempts (step io m e) = (attempts m ++ ext)%list.
Proof.
  destruct (step_attempts io m e) as [E | [(v & _ & _ & E) | (q & E & _)]];
    rewrite E; [exists [] | eauto | eauto]. by rewrite app_nil_r.
Qed.

(** When [connect] has to make a socket, it logs the primary attempt for the
    promise it returns. *)
Lemma connect_attempts (io : nat -> bool) (u : string) (m : Machine) :
  socket_connected m = false ->
  attempts (connect io u m)
  = (attempts m ++ [(length (calls m), SOCKET_URL)])%list.
Proof.
  intros H. unfold connect.
  change (socket_connected (set_localStorage (Some u) (set_svc_username (Some u) m)))
    with (socket_connected m).
  rewrite H. simpl. by destruct (io (length (attempts m))).
Qed.

(** A promise resolves to false only in one of three ways: its fallback
    socket errors, its primary socket errors while [reconnectAttempts] is not
    0, or the fallback attempt just made for it threw. *)
Lemma step_fails (io : nat -> bool) (m : Machine) (e : Event) (p : nat) :
  outcome_of p (step io m e) <> outcome_of p m ->
  outcome_of p (step io m e) = Resolved false ->
  (exists s k, e = OnConnectError s /\ sockets m !! s = Some k /\
               owner k = p /\ url k = FALLBACK_URL) \/
  (primary_error m e p /\ reconnectAttempts m <> 0) \/
  attempts (step io m e) = (attempts m ++ [(p, FALLBACK_URL)])%list.
Proof.
  unfold outcome_of, primary_error.
  destruct e; munfold; simpl; repeat case_match; simpl in *.
  all: try congruence.
  all: rewrite ?call_outcome_snoc.
  all: try case_decide; subst; simpl; try congruence.
  all: rewrite ?(call_outcome_fresh (calls m) (length (calls m))) by lia.
  all: try congruence.
  all: try settle_cases.
  all: rewrite ?call_outcome_alter_same in *
         by (apply clear_call_outcome || apply fire_call_outcome).
  all: try congruence.
  all: intros _ _.
  all: try (left; by eauto 10).
  all: try (right; left; by eauto 10).
  all: by (right; right).
Qed.

Lemma reachable_run (io : nat -> bool) (m : Machine) (es : list Event) :
  reachable io m -> reachable io (run io m es).
Proof.
  revert m. induction es as [| e es IH]; intros m Hm; [exact Hm |].
  simpl. apply IH. by constructor.
Qed.

(** A rejected promise is one whose primary [io] call threw. *)
Lemma rejected_logged (io : nat -> bool) (m : Machine) (p : nat) :
  reachable io m ->
  outcome_of p m = Rejected ->
  exists n, attempts m !! n = Some (p, SOCKET_URL) /\ io n = true.
Proof.
  induction 1 as [stored | m e _ IH]; [discriminate |].
  intros Hrej.
  destruct (decide (outcome_of p (step io m e) = outcome_of p m)) as [E | Hne].
  - rewrite E in Hrej. destruct (IH Hrej) as (n & Hn & Hio).
    exists n. split; [| exact Hio].
    destruct (step_attempts_grow io m e) as [ext ->].
    rewrite lookup_app_l; [exact Hn |]. by eapply lookup_lt_Some.
  - destruct (step_settles io m e p Hne) as [_ Hs]. rewrite Hrej in Hs.
    inversion Hs as [| u Hconn Hio | | | | |]; subst.
    exists (length (attempts m)). split; [| exact Hio].
    simpl. rewrite connect_attempts by exact Hconn.
    by rewrite list_lookup_middle.
Qed.

(** Only [connect] writes the stored name. *)
Lemma step_localStorage (io : nat -> bool) (m : Machine) (e : Event) :
  (forall v, e <> Connect v) -> localStorage (step io m e) = localStorage m.
Proof.
  intros He. destruct e; [by destruct (He u) | ..];
    munfold; simpl; repeat case_match; reflexivity.
Qed.

Lemma connect_localStorage (io : nat -> bool) (u : string) (m : Machine) :
  localStorage (connect io u m) = Some u.
Proof. munfold. simpl. repeat case_match; reflexivity. Qed.

(** C3: [connect] attempts the primary URL first and the fallback URL only
    after it; the log gains a fallback attempt only on a ["connect_error"]
    or the timeout of the primary; and the promise resolves to false only
    once the fallback has been attempted for it or, the fallback untried,
    when the primary errors while [reconnectAttempts] is not 0. *)
Theorem connect_failover (io : nat -> bool) (m : Machine) (e : Event) (p : nat) :
  reachable io m ->
  in_declared_order (attempts_of p m) /\
  (attempts (step io m e) = attempts m \/
   (exists u, e = Connect u /\ socket_connected m = false /\
      attempts (step io m e)
      = (attempts m ++ [(length (calls m), SOCKET_URL)])%list) \/
   (exists q, attempts (step io m e) = (attempts m ++ [(q, FALLBACK_URL)])%list /\
      (primary_error m e q \/ primary_timeout m e q))) /\
  (outcome_of p m = Pending ->
   outcome_of p (step io m e) = Resolved false ->
   FALLBACK_URL ∈ attempts_of p (step io m e) \/
   (primary_error m e p /\ reconnectAttempts m <> 0)).
Proof.
  intros Hreach. pose proof (reachable_ok io m Hreach) as Hok.
  split; [apply (ok_order m Hok) |]. split; [apply step_attempts |].
  intros Hpend Hfalse.
  assert (Hne : outcome_of p (step io m e) <> outcome_of p m) by congruence.
  destruct (step_fails io m e p Hne Hfalse)
    as [(s & k & _ & Hk & Ho & Hu) | [Hprim | E]].
  - left. apply attempts_of_elem.
    destruct (step_attempts_grow io m e) as [ext ->].
    apply elem_of_app. left. apply (ok_socket_logged m Hok).
    unfold sock_ids. apply list_elem_of_fmap. exists k.
    split; [by rewrite Ho, Hu |]. eapply list_elem_of_lookup_2. exact Hk.
  - by right.
  - left. apply attempts_of_elem. rewrite E. apply elem_of_app. right.
    by apply list_elem_of_singleton.
Qed.

Lemma connect_failover_witness :
  reachable io_never_throws
    (run io_never_throws init_machine [Connect "ann"; OnConnectError 0]) /\
  in_declared_order
    (attempts_of 0 (run io_never_throws init_machine [Connect "ann"; OnConnectError 0])) /\
  (FALLBACK_URL
   ∈ attempts_of 0
       (step io_never_throws
          (run io_never_throws init_machine [Connect "ann"; OnConnectError 0])
          (OnConnectError 1)) \/
   (primary_error
      (run io_never_throws init_machine [Connect "ann"; OnConnectError 0])
      (OnConnectError 1) 0 /\
    reconnectAttempts
      (run io_never_throws init_machine [Connect "ann"; OnConnectError 0]) <> 0)).
Proof.
  assert (Hr : reachable io_never_throws
                 (run io_never_throws init_machine [Connect "ann"; OnConnectError 0])).
  { apply reachable_run. apply (reach_init io_never_throws None). }
  split; [exact Hr |].
  destruct (connect_failover io_never_throws _ (OnConnectError 1) 0 Hr)
    as (Hord & _ & Hfail).
  split; [exact Hord |]. apply Hfail; reflexivity.
Defined.

(** C3, as stated, fails: on a second login after a failed one the primary
    errors, [reconnectAttempts] is still 1, and the promise resolves to
    false with the fallback never attempted for it. *)
Lemma second_login_fails_without_fallback :
  reachable io_never_throws (run io_never_throws init_machine second_login) /\
  outcome_of 1 (run io_never_throws init_machine second_login) = Resolved false /\
  attempts_of 1 (run io_never_throws init_machine second_login) = [SOCKET_URL] /\
  ~ all_candidates_attempted 1 (run io_never_throws init_machine second_login).
Proof.
  split; [apply reachable_run; apply (reach_init io_never_throws None) |].
  split; [reflexivity |]. split; [reflexivity |].
  unfold all_candidates_attempted, candidates. intros H.
  apply Forall_cons in H as [_ H]. apply Forall_cons in H as [H _].
  change (FALLBACK_URL ∈ [SOCKET_URL]) in H.
  apply list_elem_of_singleton in H. discriminate.
Qed.

(** C4: the promise of [connect] is rejected only when the [io] call for the
    primary URL throws (so never when [io] does not throw); a pending promise
    changes state only in the ways of [settles]: to true when already
    connected or on a socket's ["connect"], to false on the failures; and the
    promise of [connectToServer], which wraps it, is never rejected. *)
Theorem connect_rejects_only_on_throw (io : nat -> bool) (m : Machine) (p : nat) :
  reachable io m ->
  (outcome_of p m = Rejected ->
   exists n, attempts m !! n = Some (p, SOCKET_URL) /\ io n = true) /\
  ((forall n, io n = false) -> outcome_of p m <> Rejected) /\
  (forall e, outcome_of p (step io m e) <> outcome_of p m ->
             outcome_of p m = Pending /\
             settles io m e p (outcome_of p (step io m e))) /\
  (forall u o w, (connectToServer_settled u o w).2 <> Rejected).
Proof.
  intros Hreach. split; [by apply rejected_logged |]. split.
  - intros Hio Hrej. destruct (rejected_logged io m p Hreach Hrej) as (n & _ & Hn).
    rewrite Hio in Hn. discriminate.
  - split; [intros e; apply step_settles |].
    intros u o w. unfold connectToServer_settled.
    destruct o as [| [|] |]; simpl; discriminate.
Qed.

Lemma connect_rejects_only_on_throw_witness :
  reachable io_always_throws (step io_always_throws init_machine (Connect "ann")) /\
  exists n, attempts (step io_always_throws init_machine (Connect "ann")) !! n
            = Some (0, SOCKET_URL) /\ io_always_throws n = true.
Proof.
  assert (Hr : reachable io_always_throws
                 (step io_always_throws init_machine (Connect "ann"))).
  { constructor. apply (reach_init io_always_throws None). }
  split; [exact Hr |].
  destruct (connect_rejects_only_on_throw io_always_throws _ 0 Hr) as [Hrej _].
  apply Hrej. reflexivity.
Defined.

(** C4, as stated, fails: when [io] throws for the primary URL the promise of
    [connect] is rejected. *)
Lemma connect_rejects_when_io_throws :
  reachable io_always_throws (step io_always_throws init_machine (Connect "ann")) /\
  outcome_of 0 (step io_always_throws init_machine (Connect "ann")) = Rejected.
Proof.
  split; [| reflexivity].
  constructor. apply (reach_init io_always_throws None).
Qed.

(** C6: every [connect] call stores the display name at once, whatever its
    outcome, and the name stays stored through the events that follow until
    another [connect]; the [then] handler of [connectToServer] stores it
    again, for a successful connection and for a failed one alike. *)
Theorem connect_persists_name (io : nat -> bool) (m : Machine) (u : string)
    (es : list Event) (w : World) (success : bool) :
  Forall (fun e => forall v, e <> Connect v) es ->
  localStorage (run io (connect io u m) es) = Some u /\
  localStorage (machine (connectToServer_settled u (Resolved success) w).1) = Some u.
Proof.
  intros Hes. split.
  2: { unfold connectToServer_settled, svc_getRoomList.
       destruct success; simpl; [destruct (socket (machine w)) |]; reflexivity. }
  rewrite <- (connect_localStorage io u m).
  generalize (connect io u m). intros m0. revert m0.
  induction Hes as [| e es He _ IH]; intros m0; [reflexivity |].
  simpl. rewrite IH. by apply step_localStorage.
Qed.

Lemma connect_persists_name_witness :
  Forall (fun e => forall v, e <> Connect v) [OnConnect 0] /\
  outcome_of 0 (run io_never_throws (connect io_never_throws "ann" init_machine)
                  [OnConnect 0]) = Resolved true /\
  localStorage (run io_never_throws (connect io_never_throws "ann" init_machine)
                  [OnConnect 0]) = Some "ann".
Proof.
  assert (H : Forall (fun e => forall v, e <> Connect v) [OnConnect 0])
    by (repeat constructor; discriminate).
  split; [exact H |]. split; [reflexivity |].
  exact (proj1 (connect_persists_name io_never_throws init_machine "ann"
                  [OnConnect 0] sample_world true H)).
Defined.

(** C6, as stated, fails: a [connect] call that ends in failure has stored
    the name all the same. *)
Lemma failed_connect_stores_name :
  localStorage init_machine = None /\
  outcome_of 0 (run io_never_throws init_machine
                  [Connect "ann"; OnConnectError 0; OnConnectError 1])
  = Resolved false /\
  localStorage (run io_never_throws init_machine
                  [Connect "ann"; OnConnectError 0; OnConnectError 1])
  = Some "ann".
Proof. by repeat split. Qed.

(** * Further properties *)

(** ** checkWinner on any board *)

Lemma line_hit_same (b : list cell) (line : list nat) :
  line ∈ lines -> line_hit b line = true <-> same_nonempty b line.
Proof.
  intros Hl. destruct (line_shape _ Hl) as (a1 & a2 & a3 & ->).
  unfold line_hit, same_nonempty, strict_eq. split.
  - intros H. apply andb_prop in H as [H H3]. apply andb_prop in H as [H1 H2].
    apply bool_decide_eq_true in H2, H3.
    destruct (get b a1) as [| | s] eqn:E1; try discriminate.
    exists s. split.
    + intros ->. discriminate.
    + repeat constructor; congruence.
  - intros (s & Hs & Hm).
    apply Forall_cons in Hm as [E1 Hm]. apply Forall_cons in Hm as [E2 Hm].
    apply Forall_cons in Hm as [E3 _].
    rewrite E1, E2, E3. simpl. rewrite !bool_decide_eq_true_2 by done.
    destruct (String.eqb_spec s ""); [done | reflexivity].
Qed.

(** X1: [checkWinner] returns the first of the eight lines, in their fixed
    order, whose three cells hold the same non-empty string, and null exactly
    when no line does. *)
Theorem checkWinner_first_line (b : list cell) :
  match checkWinner b with
  | Some line =>
      exists before after,
        lines = (before ++ line :: after)%list /\
        same_nonempty b line /\
        Forall (fun l => ~ same_nonempty b l) before
  | None => forall line, line ∈ lines -> ~ same_nonempty b line
  end.
Proof.
  destruct (checkWinner b) as [line |] eqn:E.
  - destruct (checkWinner_first b line E) as (bf & af & Hl & Hhit & Hbf).
    exists bf, af. split; [exact Hl |].
    assert (Hin : forall l, l ∈ (bf ++ [line])%list -> l ∈ lines).
    { intros l H. rewrite Hl. apply elem_of_app in H as [H | H];
        apply elem_of_app; [by left | right].
      apply list_elem_of_singleton in H. subst. apply list_elem_of_here. }
    split.
    + apply line_hit_same; [| exact Hhit].
      apply Hin, elem_of_app. right. by apply list_elem_of_singleton.
    + apply Forall_forall. intros l Hlb Hsame.
      rewrite Forall_forall in Hbf. specialize (Hbf l Hlb).
      apply line_hit_same in Hsame; [congruence |].
      apply Hin, elem_of_app. by left.
  - intros line Hin Hsame. apply line_hit_same in Hsame; [| exact Hin].
    unfold checkWinner in E. apply list_elem_of_In in Hin.
    pose proof (find_none _ _ E _ Hin). congruence.
Qed.

(** ** What an accepted move changes *)

Lemma length_js_set (b : list cell) (i : nat) (v : cell) :
  length (js_set b i v) = max (length b) (S i).
Proof.
  unfold js_set. destruct (decide (i < length b)).
  - rewrite length_insert. lia.
  - rewrite !length_app, length_replicate. simpl. lia.
Qed.

Lemma offlineMove_accepts (gs : GameState) (index : nat) :
  truthy (get (board gs) index) = false -> gameOver gs = false ->
  exists gs' bot,
    offlineMove gs index = Some (gs', bot) /\
    board gs' = js_set (board gs) index (Str (mark_str (currentTurn gs))) /\
    currentTurn gs' = other (currentTurn gs) /\
    players gs' = players gs.
Proof.
  intros Hc Ho. unfold offlineMove. rewrite Hc, Ho. simpl.
  eexists _, _. by repeat split.
Qed.

Lemma offlineMove_guard (gs gs' : GameState) (index : nat) (bot : option (list cell)) :
  offlineMove gs index = Some (gs', bot) ->
  truthy (get (board gs) index) = false /\ gameOver gs = false /\
  board gs' = js_set (board gs) index (Str (mark_str (currentTurn gs))) /\
  currentTurn gs' = other (currentTurn gs) /\
  players gs' = players gs /\
  winningCombination gs' = checkWinner (board gs') /\
  winner gs' = match checkWinner (board gs') with
               | Some _ => player_of (players gs) (currentTurn gs)
               | None => None
               end /\
  (is_Some (checkWinner (board gs')) -> gameOver gs' = true).
Proof.
  unfold offlineMove.
  destruct (truthy (get (board gs) index)) eqn:Hc; [discriminate |].
  destruct (gameOver gs) eqn:Ho; [discriminate |]. simpl.
  intros [= <- _]. simpl. repeat split.
  intros H. by rewrite bool_decide_eq_true_2.
Qed.

(** X2: in offline mode a move on a cell that is not occupied, in a game
    that is not over, writes the mover's mark in that cell and in no other,
    hands the turn to the other mark, keeps the players, and touches nothing
    else the provider holds; the board grows only when the index is past its
    end. *)
Theorem makeMove_accepted_effect (w : World) (gs : GameState) (index : nat) :
  isOfflineMode w = true ->
  gameState w = Some gs ->
  truthy (get (board gs) index) = false ->
  gameOver gs = false ->
  exists gs',
    gameState (makeMove w index) = Some gs' /\
    (forall j, get (board gs') j =
               if decide (j = index) then Str (mark_str (currentTurn gs))
               else get (board gs) j) /\
    length (board gs') = max (length (board gs)) (S index) /\
    currentTurn gs' = other (currentTurn gs) /\
    players gs' = players gs /\
    username (makeMove w index) = username w /\
    rooms (makeMove w index) = rooms w /\
    messages (makeMove w index) = messages w /\
    currentRoom (makeMove w index) = currentRoom w /\
    machine (makeMove w index) = machine w.
Proof.
  intros Hoff Hgs Hc Ho.
  destruct (offlineMove_accepts gs index Hc Ho) as (gs' & bot & E & Hb & Ht & Hp).
  exists gs'. unfold makeMove. rewrite Hoff, Hgs, E.
  split; [by destruct bot |].
  split; [intros j; rewrite Hb; apply get_js_set |].
  split; [rewrite Hb; apply length_js_set |].
  destruct bot; by repeat split.
Qed.

Lemma makeMove_accepted_effect_witness :
  truthy (get (board scenario_state) 5) = false /\
  exists gs',
    gameState (makeMove (set_gameState (Some scenario_state) sample_world) 5)
    = Some gs' /\
    board gs'
    = [Str "X"; Str "X"; Null; Str "O"; Str "O"; Str "X"; Null; Null; Null] /\
    currentTurn gs' = MarkO.
Proof.
  split; [reflexivity |].
  destruct (makeMove_accepted_effect
              (set_gameState (Some scenario_state) sample_world)
              scenario_state 5 eq_refl eq_refl eq_refl eq_refl)
    as (gs' & Hg & _ & _ & Ht & _).
  exists gs'. split; [exact Hg |]. split; [| exact Ht].
  vm_compute in Hg. injection Hg as <-. reflexivity.
Defined.



(** ** The winner named is the one who filled the line *)

Lemma mark_str_inj (m m' : Mark) : mark_str m = mark_str m' -> m = m'.
Proof. by destruct m, m'. Qed.

Lemma startGame_winner (ps : Players) : winner_matches (startGame ps).
Proof.
  unfold winner_matches. simpl. split; [reflexivity |].
  intros H. apply (checkWinner_is_Some _ (proj1 (startGame_ok ps))) in H.
  destruct H as [l Hl]. discriminate.
Qed.

Lemma offlineMove_winner (gs gs' : GameState) (index : nat) (bot : option (list cell)) :
  game_ok gs ->
  offlineMove gs index = Some (gs', bot) ->
  winner_matches gs'.
Proof.
  intros [Hcells Hspec] E.
  pose proof (offlineMove_ok _ _ _ _ Hcells E) as [Hcells' _].
  destruct (offlineMove_guard _ _ _ _ E)
    as (_ & Hover & Hb & Ht & Hp & Hcomb & Hwin & Hgo).
  unfold winner_matches. rewrite Hcomb, Hwin, Ht, Hp.
  destruct (checkWinner (board gs')) as [line |] eqn:Ecw.
  - assert (Hin : line ∈ lines).
    { apply list_elem_of_In. unfold checkWinner in Ecw.
      by apply find_some in Ecw as [? _]. }
    assert (Hwon : line_won (board gs') line).
    { apply line_hit_won; [exact Hcells' | exact Hin |].
      unfold checkWinner in Ecw. by apply find_some in Ecw as [_ ?]. }
    destruct Hwon as [m Hm].
    assert (m = currentTurn gs) as ->.
    { destruct (decide (m = currentTurn gs)) as [| Hne]; [done | exfalso].
      assert (Hold : winning_line_exists (board gs)).
      { exists line. split; [exact Hin |]. exists m.
        eapply Forall_impl; [exact Hm |]. intros i Hi. simpl in Hi.
        rewrite Hb, get_js_set in Hi.
        destruct (decide (i = index)); [| exact Hi].
        injection Hi as Hi. apply mark_str_inj in Hi. congruence. }
      assert (gameOver gs = true) by (apply Hspec; by left). congruence. }
    split; [exact Hin |]. split; [| split].
    + by destruct (currentTurn gs).
    + by destruct (currentTurn gs).
    + apply Hgo. by eexists.
  - split; [reflexivity |]. intros H.
    apply (checkWinner_is_Some _ Hcells') in H. destruct H as [? ?]. congruence.
Qed.

(** X4: throughout an offline game, the winner fields agree with the board.
    When a winning combination is set it is one of the eight lines, its three
    cells hold the mark of the player who moved last, the winner is that
    player's display name and the game is over; when none is set there is no
    winner and no line is won.  The players are those the game started with. *)
Theorem winner_is_line_owner (w0 : World) (ps : Players) (moves : list nat) :
  isOfflineMode w0 = true ->
  gameState w0 = Some (startGame ps) ->
  exists gs,
    gameState (foldl makeMove w0 moves) = Some gs /\
    winner_matches gs /\ players gs = ps.
Proof.
  intros Hoff Hgs.
  assert (H : forall w,
             isOfflineMode w = true ->
             (exists gs, gameState w = Some gs /\ game_ok gs /\
                         winner_matches gs /\ players gs = ps) ->
             exists gs, gameState (foldl makeMove w moves) = Some gs /\
                        game_ok gs /\ winner_matches gs /\ players gs = ps).
  { induction moves as [| i moves IH]; intros w Ho Hw; [exact Hw |].
    simpl. destruct Hw as (gs & Hg & Hok & Hwm & Hp).
    unfold makeMove at 2. rewrite Ho, Hg.
    destruct (offlineMove gs i) as [[gs' bot] |] eqn:E.
    - assert (Hnext : exists g, Some gs' = Some g /\ game_ok g /\
                                winner_matches g /\ players g = ps).
      { exists gs'. split; [reflexivity |].
        split; [eapply offlineMove_ok; [exact (proj1 Hok) | exact E] |].
        split; [eapply offlineMove_winner; [exact Hok | exact E] |].
        destruct (offlineMove_guard _ _ _ _ E) as (_ & _ & _ & _ & Hp' & _).
        congruence. }
      destruct bot; apply IH; simpl; auto.
    - apply IH; [exact Ho |]. by exists gs. }
  destruct (H w0 Hoff) as (gs & Hg & _ & Hwm & Hp).
  - exists (startGame ps). split; [exact Hgs |].
    split; [apply startGame_ok |]. split; [apply startGame_winner | reflexivity].
  - by exists gs.
Qed.

Lemma winner_is_line_owner_witness :
  exists gs,
    gameState (foldl makeMove sample_world [0; 3; 1; 4; 2]) = Some gs /\
    winner_matches gs /\ players gs = sample_players.
Proof.
  apply (winner_is_line_owner sample_world sample_players [0; 3; 1; 4; 2]);
    reflexivity.
Defined.

(** ** Turns and marks *)

Lemma count_mark_cons (m : Mark) (c : cell) (b : list cell) :
  count_mark m (c :: b)
  = (if decide (c = Str (mark_str m)) then 1 else 0) + count_mark m b.
Proof.
  unfold count_mark. rewrite filter_cons.
  by destruct (decide (c = Str (mark_str m))).
Qed.

Lemma count_mark_app (m : Mark) (b1 b2 : list cell) :
  count_mark m (b1 ++ b2) = count_mark m b1 + count_mark m b2.
Proof. unfold count_mark. by rewrite filter_app, length_app. Qed.

Lemma count_mark_undefined (m : Mark) (n : nat) :
  count_mark m (replicate n Undefined) = 0.
Proof.
  induction n as [| n IH]; [reflexivity |].
  simpl. rewrite count_mark_cons, IH. by rewrite decide_False.
Qed.

Lemma js_set_cons_S (c : cell) (b : list cell) (i : nat) (v : cell) :
  js_set (c :: b) (S i) v = c :: js_set b i v.
Proof.
  unfold js_set. simpl.
  destruct (decide (S i < S (length b))), (decide (i < length b));
    try lia; reflexivity.
Qed.

Lemma count_mark_js_set (m m' : Mark) (b : list cell) (i : nat) :
  truthy (get b i) = false ->
  count_mark m (js_set b i (Str (mark_str m')))
  = count_mark m b + (if decide (m = m') then 1 else 0).
Proof.
  revert i. induction b as [| c b IH]; intros i Hc.
  - unfold js_set. simpl. rewrite count_mark_app, count_mark_undefined.
    rewrite count_mark_cons.
    change (count_mark m []) with 0. simpl.
    destruct (decide (m = m')) as [-> |].
    + by rewrite decide_True.
    + rewrite decide_False; [reflexivity |]. intros [= H].
      apply mark_str_inj in H. congruence.
  - destruct i as [| i].
    + unfold js_set. rewrite decide_True by (simpl; lia). simpl.
      rewrite !count_mark_cons.
      assert (c <> Str (mark_str m)).
      { intros ->. change (truthy (Str (mark_str m)) = false) in Hc.
        by rewrite mark_truthy in Hc. }
      rewrite (decide_False (P := c = _)) by done.
      destruct (decide (m = m')) as [-> |].
      * rewrite decide_True by done. lia.
      * rewrite decide_False; [lia |]. intros [= H0].
        apply mark_str_inj in H0. congruence.
    + rewrite js_set_cons_S, !count_mark_cons, IH; [lia |]. exact Hc.
Qed.

(** X5: throughout an offline game the turns alternate with the marks on the
    board: when it is X's turn the board holds as many X as O, when it is O's
    turn one X more. *)
Theorem turns_alternate (w0 : World) (ps : Players) (moves : list nat) :
  isOfflineMode w0 = true ->
  gameState w0 = Some (startGame ps) ->
  exists gs,
    gameState (foldl makeMove w0 moves) = Some gs /\ turn_matches_counts gs.
Proof.
  intros Hoff Hgs.
  assert (H : forall w,
             isOfflineMode w = true ->
             (exists gs, gameState w = Some gs /\ turn_matches_counts gs) ->
             exists gs, gameState (foldl makeMove w moves) = Some gs /\
                        turn_matches_counts gs).
  { induction moves as [| i moves IH]; intros w Ho Hw; [exact Hw |].
    simpl. destruct Hw as (gs & Hg & Htc).
    unfold makeMove at 2. rewrite Ho, Hg.
    destruct (offlineMove gs i) as [[gs' bot] |] eqn:E.
    - assert (Hnext : exists g, Some gs' = Some g /\ turn_matches_counts g).
      { exists gs'. split; [reflexivity |].
        destruct (offlineMove_guard _ _ _ _ E) as (Hc & _ & Hb & Ht & _).
        unfold turn_matches_counts in *. rewrite Ht, Hb.
        rewrite !count_mark_js_set by exact Hc.
        destruct (currentTurn gs); simpl;
          repeat (rewrite decide_True by done || rewrite decide_False by done);
          lia. }
      destruct bot; apply IH; simpl; auto.
    - apply IH; [exact Ho |]. by exists gs. }
  apply (H w0 Hoff). exists (startGame ps). split; [exact Hgs | reflexivity].
Qed.

Lemma turns_alternate_witness :
  exists gs,
    gameState (foldl makeMove sample_world [0; 3; 1; 11; 1]) = Some gs /\
    turn_matches_counts gs.
Proof.
  apply (turns_alternate sample_world sample_players [0; 3; 1; 11; 1]);
    reflexivity.
Defined.

(** ** Rooms in offline mode *)

Lemma joinRoom_joins (w : World) (id uid : string) (now : nat) (r : Room) :
  isOfflineMode w = true ->
  find_room id (rooms w) = Some r ->
  length (room_players r) < 2 ->
  joinRoom w id uid now
  = (set_messages [welcome uid now]
       (set_gameState
          (Some (startGame (mkPlayers (head (room_players r)) (username w))))
          (set_currentRoom (Some id)
             (set_rooms (seat_in id (name_or_You (username w)) <$> rooms w) w))),
     RetResolved).
Proof.
  intros Hoff Hr Hlen. unfold joinRoom. rewrite Hoff, Hr.
  rewrite decide_False by lia. reflexivity.
Qed.

Lemma seat_in_ids (id me : string) (rs : list Room) :
  room_id <$> (seat_in id me <$> rs) = room_id <$> rs.
Proof.
  rewrite <- list_fmap_compose. apply list_fmap_ext. intros _ r _.
  simpl. unfold seat_in. by destruct (String.eqb (room_id r) id).
Qed.

Lemma seat_in_elem (id me : string) (rs : list Room) (r : Room) :
  r ∈ rs -> room_id r = id -> seat me r ∈ seat_in id me <$> rs.
Proof.
  intros Hin Hid. apply list_elem_of_fmap. exists r. split; [| exact Hin].
  unfold seat_in. by rewrite Hid, String.eqb_refl.
Qed.

Lemma room_ids_unique (rs : list Room) (r r' : Room) :
  NoDup (room_id <$> rs) -> r ∈ rs -> r' ∈ rs -> room_id r = room_id r' -> r = r'.
Proof.
  intros Hnd Hr Hr' Hid.
  pose proof (find_room_unique r rs Hnd Hr) as E.
  pose proof (find_room_unique r' rs Hnd Hr') as E'.
  rewrite Hid in E. congruence.
Qed.

Lemma find_room_seat_in (id me : string) (rs : list Room) :
  find_room id (seat_in id me <$> rs) = seat me <$> find_room id rs.
Proof.
  unfold find_room. induction rs as [| r rs IH]; [reflexivity |].
  rewrite fmap_cons. cbn [find].
  assert (Hid : room_id (seat_in id me r) = room_id r).
  { unfold seat_in. by destruct (String.eqb (room_id r) id). }
  rewrite Hid. destruct (String.eqb (room_id r) id) eqn:E; [| exact IH].
  unfold seat_in. by rewrite E.
Qed.

Lemma find_room_snoc_fresh (id : string) (rs : list Room) (r : Room) :
  id ∉ room_id <$> rs -> room_id r = id -> find_room id (rs ++ [r]) = Some r.
Proof.
  intros Hfresh Hid. unfold find_room. induction rs as [| r0 rs IH]; simpl.
  - by rewrite Hid, String.eqb_refl.
  - rewrite fmap_cons in Hfresh. apply not_elem_of_cons in Hfresh as [Hne Hfresh].
    destruct (String.eqb_spec (room_id r0) id); [congruence | by apply IH].
Qed.

Lemma find_available_Some (rs : list Room) (r : Room) :
  find_available rs = Some r ->
  r ∈ rs /\ isPrivate r = false /\ length (room_players r) < 2.
Proof.
  unfold find_available. intros H. apply find_some in H as [Hin Hc].
  apply andb_prop in Hc as [Hp Hl]. apply bool_decide_eq_true in Hl.
  split; [by apply list_elem_of_In |]. split; [| exact Hl].
  by destruct (isPrivate r).
Qed.

(** X6: in offline mode, with identifiers not repeated, joining a room that
    has fewer than 2 occupants succeeds: the user becomes the last occupant
    of that room, every other room and the order of the list are as before,
    the room becomes the current one, a new game starts with the room's first
    occupant as X and the user as O, and the message log is reset to the
    welcome message. *)
Theorem joinRoom_seats_user (w : World) (r : Room) (uid : string) (now : nat) :
  isOfflineMode w = true ->
  NoDup (room_id <$> rooms w) ->
  r ∈ rooms w ->
  length (room_players r) < 2 ->
  let res := joinRoom w (room_id r) uid now in
  res.2 = RetResolved /\
  room_id <$> rooms res.1 = room_id <$> rooms w /\
  find_room (room_id r) (rooms res.1)
  = Some (seat (name_or_You (username w)) r) /\
  (forall r', r' ∈ rooms w -> room_id r' <> room_id r -> r' ∈ rooms res.1) /\
  currentRoom res.1 = Some (room_id r) /\
  gameState res.1
  = Some (startGame (mkPlayers (head (room_players r)) (username w))) /\
  messages res.1 = [welcome uid now].
Proof.
  intros Hoff Hnd Hin Hlen. simpl.
  rewrite (joinRoom_joins w _ uid now r Hoff (find_room_unique r _ Hnd Hin) Hlen).
  simpl. split; [reflexivity |]. split; [apply seat_in_ids |].
  split; [| split; [| by repeat split]].
  - change (room_id r) with (room_id (seat (name_or_You (username w)) r)) at 1.
    apply find_room_unique; [by rewrite seat_in_ids | by apply seat_in_elem].
  - intros r' Hr' Hne. apply list_elem_of_fmap. exists r'. split; [| exact Hr'].
    unfold seat_in. by destruct (String.eqb_spec (room_id r') (room_id r)).
Qed.

Lemma joinRoom_seats_user_witness :
  find_room "demo-room-1" (rooms (joinRoom sample_world "demo-room-1" "id-1" 7).1)
  = Some (mkRoom "demo-room-1" "Public Game Room" ["Player1"; "bob"] 0 false).
Proof.
  assert (Hnd : NoDup (room_id <$> rooms sample_world)).
  { apply (bool_decide_unpack _). by vm_compute. }
  assert (Hin : mkRoom "demo-room-1" "Public Game Room" ["Player1"] 0 false
                ∈ rooms sample_world) by apply list_elem_of_here.
  destruct (joinRoom_seats_user sample_world _ "id-1" 7 eq_refl Hnd Hin)
    as (_ & _ & Hfind & _); [simpl; lia | exact Hfind].
Defined.

(** X7: in offline mode, when identifiers are not repeated and no room has
    more than two occupants, this is still so after [joinRoom], whatever
    room is asked for and whether or not the call succeeds; [createRoom]
    keeps the bound too and adds one room. *)
Theorem rooms_keep_capacity (w : World) (id uid name : string) (isPriv : bool)
    (now : nat) :
  isOfflineMode w = true ->
  NoDup (room_id <$> rooms w) ->
  capacity_ok (rooms w) ->
  (NoDup (room_id <$> rooms (joinRoom w id uid now).1) /\
   capacity_ok (rooms (joinRoom w id uid now).1)) /\
  (capacity_ok (rooms (createRoom w name isPriv now).1) /\
   length (rooms (createRoom w name isPriv now).1) = S (length (rooms w))).
Proof.
  intros Hoff Hnd Hcap. split.
  - destruct (find_room id (rooms w)) as [r |] eqn:Hr.
    + destruct (decide (length (room_players r) < 2)) as [Hlt | Hge].
      * rewrite (joinRoom_joins w id uid now r Hoff Hr Hlt). simpl.
        split; [by rewrite seat_in_ids |].
        unfold capacity_ok in *. rewrite Forall_fmap. rewrite Forall_forall in Hcap.
        apply Forall_forall. intros r' Hr'. simpl. unfold seat_in.
        destruct (String.eqb_spec (room_id r') id) as [E | _]; [| by apply Hcap].
        assert (r' = r) as ->.
        { unfold find_room in Hr. apply find_some in Hr as [Hin Hid].
          apply list_elem_of_In in Hin. apply String.eqb_eq in Hid.
          eapply room_ids_unique; eauto. congruence. }
        simpl. rewrite length_app. simpl. lia.
      * unfold joinRoom. rewrite Hoff, Hr. rewrite decide_True by lia. by split.
    + unfold joinRoom. rewrite Hoff, Hr. by split.
  - unfold createRoom. rewrite Hoff. simpl. split.
    + apply Forall_app. split; [exact Hcap |]. repeat constructor.
    + rewrite length_app. simpl. lia.
Qed.

Lemma rooms_keep_capacity_witness :
  capacity_ok (rooms (joinRoom sample_world "demo-room-1" "id-1" 7).1) /\
  capacity_ok (rooms (createRoom sample_world "Test" false 7).1).
Proof.
  assert (Hnd : NoDup (room_id <$> rooms sample_world)).
  { apply (bool_decide_unpack _). by vm_compute. }
  assert (Hcap : capacity_ok (rooms sample_world)).
  { repeat constructor. }
  destruct (rooms_keep_capacity sample_world "demo-room-1" "id-1" "Test" false 7
              eq_refl Hnd Hcap) as [[_ H1] [H2 _]].
  by split.
Defined.

(** X8: in offline mode leaving a room does not take the user off its list
    of occupants, so after joining a room that had one occupant and leaving
    it, joining it again is rejected with "Room is full". *)
Theorem rejoin_after_leave_is_full (w : World) (r : Room) (uid uid' : string)
    (now now' : nat) :
  isOfflineMode w = true ->
  NoDup (room_id <$> rooms w) ->
  r ∈ rooms w ->
  length (room_players r) = 1 ->
  let w1 := leaveRoom (joinRoom w (room_id r) uid now).1 in
  (joinRoom w (room_id r) uid now).2 = RetResolved /\
  currentRoom w1 = None /\ gameState w1 = None /\ messages w1 = [] /\
  find_room (room_id r) (rooms w1) = Some (seat (name_or_You (username w)) r) /\
  joinRoom w1 (room_id r) uid' now' = (w1, RetRejected "Room is full").
Proof.
  intros Hoff Hnd Hin Hlen.
  assert (Hlt : length (room_players r) < 2) by lia.
  pose proof (find_room_unique r _ Hnd Hin) as Hr.
  assert (Hfind : find_room (room_id r)
                    (seat_in (room_id r) (name_or_You (username w)) <$> rooms w)
                  = Some (seat (name_or_You (username w)) r))
    by (by rewrite find_room_seat_in, Hr).
  rewrite (joinRoom_joins w _ uid now r Hoff Hr Hlt).
  simpl. unfold leaveRoom. simpl. rewrite Hoff. simpl.
  split; [reflexivity |]. split; [reflexivity |]. split; [reflexivity |].
  split; [reflexivity |]. split; [exact Hfind |].
  unfold joinRoom. simpl. rewrite Hoff, Hfind.
  rewrite decide_True; [reflexivity |]. simpl. rewrite length_app. simpl. lia.
Qed.

Lemma rejoin_after_leave_is_full_witness :
  joinRoom (leaveRoom (joinRoom sample_world "demo-room-1" "id-1" 7).1)
           "demo-room-1" "id-2" 8
  = (leaveRoom (joinRoom sample_world "demo-room-1" "id-1" 7).1,
     RetRejected "Room is full").
Proof.
  assert (Hnd : NoDup (room_id <$> rooms sample_world)).
  { apply (bool_decide_unpack _). by vm_compute. }
  assert (Hin : mkRoom "demo-room-1" "Public Game Room" ["Player1"] 0 false
                ∈ rooms sample_world) by apply list_elem_of_here.
  destruct (rejoin_after_leave_is_full sample_world _ "id-1" "id-2" 7 8
              eq_refl Hnd Hin eq_refl) as (_ & _ & _ & _ & _ & H).
  exact H.
Defined.

(** X9: in offline mode [createRoom] appends one room whose only occupant is
    the creator, makes it the current room and starts a game with the creator
    as X and nobody as O.  When its identifier is not already in the list, a
    second identity that joins that room at once is accepted: the room then
    holds the creator and the joiner, in that order, and the new game has the
    creator as X and the joiner as O. *)
Theorem createRoom_then_join (w : World) (name uid : string) (isPriv : bool)
    (now now' : nat) (joiner : option string) :
  isOfflineMode w = true ->
  newRoomId now ∉ room_id <$> rooms w ->
  let created := mkRoom (newRoomId now) name [name_or_You (username w)] 0 isPriv in
  let w1 := (createRoom w name isPriv now).1 in
  let res := joinRoom (set_username joiner w1) (newRoomId now) uid now' in
  (createRoom w name isPriv now).2 = RetResolved /\
  rooms w1 = (rooms w ++ [created])%list /\
  currentRoom w1 = Some (newRoomId now) /\
  gameState w1 = Some (startGame (mkPlayers (username w) None)) /\
  res.2 = RetResolved /\
  find_room (newRoomId now) (rooms res.1)
  = Some (mkRoom (newRoomId now) name
                 [name_or_You (username w); name_or_You joiner] 0 isPriv) /\
  gameState res.1
  = Some (startGame (mkPlayers (Some (name_or_You (username w))) joiner)).
Proof.
  intros Hoff Hfresh. simpl. unfold createRoom. rewrite Hoff. simpl.
  split; [reflexivity |]. split; [reflexivity |]. split; [reflexivity |].
  split; [reflexivity |].
  set (created := mkRoom (newRoomId now) name [name_or_You (username w)] 0 isPriv).
  set (w1 := set_username joiner _).
  assert (Hfind : find_room (newRoomId now) (rooms w1) = Some created)
    by (by apply find_room_snoc_fresh).
  rewrite (joinRoom_joins w1 _ uid now' created Hoff Hfind) by (simpl; lia).
  simpl. split; [reflexivity |]. split; [| reflexivity].
  rewrite find_room_seat_in.
  change (rooms w ++ [created])%list with (rooms w1). by rewrite Hfind.
Qed.

Lemma createRoom_then_join_witness :
  (joinRoom (set_username (Some "eve") (createRoom sample_world "Test" false 7).1)
            (newRoomId 7) "id-1" 8).2 = RetResolved.
Proof.
  assert (Hfresh : newRoomId 7 ∉ room_id <$> rooms sample_world).
  { apply find_room_None. reflexivity. }
  destruct (createRoom_then_join sample_world "Test" "id-1" false 7 8 (Some "eve")
              eq_refl Hfresh) as (_ & _ & _ & _ & H & _).
  exact H.
Defined.

(** X10: in offline mode, with identifiers not repeated, [joinRandomGame]
    never fails: it seats the user in the first public room that has fewer
    than 2 occupants, or, when there is none, creates the public room
    "Quick Game"; either way a room is current and a game is started. *)
Theorem joinRandomGame_offline (w : World) (uid : string) (now : nat) :
  isOfflineMode w = true ->
  NoDup (room_id <$> rooms w) ->
  let res := joinRandomGame w uid now in
  res.2 = RetResolved /\
  match find_available (rooms w) with
  | Some r =>
      isPrivate r = false /\ length (room_players r) < 2 /\
      currentRoom res.1 = Some (room_id r) /\
      find_room (room_id r) (rooms res.1)
      = Some (seat (name_or_You (username w)) r) /\
      gameState res.1
      = Some (startGame (mkPlayers (head (room_players r)) (username w)))
  | None =>
      currentRoom res.1 = Some (newRoomId now) /\
      rooms res.1
      = (rooms w ++ [mkRoom (newRoomId now) "Quick Game"
                            [name_or_You (username w)] 0 false])%list /\
      gameState res.1 = Some (startGame (mkPlayers (username w) None))
  end.
Proof.
  intros Hoff Hnd. simpl. unfold joinRandomGame. rewrite Hoff.
  destruct (find_available (rooms w)) as [r |] eqn:E.
  - destruct (find_available_Some _ _ E) as (Hin & Hpub & Hlt).
    pose proof (find_room_unique r _ Hnd Hin) as Hr.
    rewrite (joinRoom_joins w _ uid now r Hoff Hr Hlt). simpl.
    rewrite find_room_seat_in, Hr. by repeat split.
  - unfold createRoom. rewrite Hoff. simpl. by repeat split.
Qed.

Lemma joinRandomGame_offline_witness :
  (joinRandomGame sample_world "id-1" 7).2 = RetResolved.
Proof.
  assert (Hnd : NoDup (room_id <$> rooms sample_world)).
  { apply (bool_decide_unpack _). by vm_compute. }
  exact (proj1 (joinRandomGame_offline sample_world "id-1" 7 eq_refl Hnd)).
Defined.

(** ** Chat in offline mode *)

Lemma chat_offline (w : World) (a : ChatAct) :
  isOfflineMode w = true ->
  isOfflineMode (chat w a) = true /\
  exists msg, messages (chat w a) = (messages w ++ [msg])%list.
Proof.
  intros Hoff. destruct a; simpl.
  - unfold sendMessage. rewrite Hoff. simpl. split; [exact Hoff | by eexists].
  - split; [exact Hoff | by eexists].
  - unfold restartGame. rewrite Hoff. simpl. split; [exact Hoff | by eexists].
Qed.

(** X11: in offline mode the message log is append-only while a game goes
    on: sending a message, a canned reply and a restart each add exactly one
    message at the end and leave the earlier ones as they are. *)
Theorem chat_log_append_only (w : World) (acts : list ChatAct) :
  isOfflineMode w = true ->
  exists added,
    messages (foldl chat w acts) = (messages w ++ added)%list /\
    length added = length acts.
Proof.
  revert w. induction acts as [| a acts IH]; intros w Hoff.
  - exists []. by rewrite app_nil_r.
  - simpl. destruct (chat_offline w a Hoff) as [Hoff' [msg Hm]].
    destruct (IH _ Hoff') as (added & E & Hlen).
    exists (msg :: added). rewrite E, Hm, <- app_assoc. simpl.
    split; [reflexivity | by rewrite Hlen].
Qed.

Lemma chat_log_append_only_witness :
  exists added,
    messages (foldl chat sample_world
                [Send "hi" "id-1" 7; Restart "id-2" 8;
                 Reply (mkChatTimer None (Some "bob")) 3 "id-3" 9])
    = (messages sample_world ++ added)%list /\
    length added = 3.
Proof.
  apply (chat_log_append_only sample_world
           [Send "hi" "id-1" 7; Restart "id-2" 8;
            Reply (mkChatTimer None (Some "bob")) 3 "id-3" 9]).
  reflexivity.
Defined.

(** X12: in offline mode the user's message is logged under the user's name
    and the canned reply its timer produces is logged under another name:
    the other player's, or "Opponent" when that seat is empty or there is no
    game.  This needs the user not to be called "Opponent" and not to hold
    both seats. *)
Theorem reply_is_not_from_user (w : World) (u message uid : string) (now : nat) :
  isOfflineMode w = true ->
  username w = Some u ->
  u <> "" -> u <> "Opponent" ->
  (forall gs, gameState w = Some gs ->
              ~ (playerX (players gs) = Some u /\ playerO (players gs) = Some u)) ->
  exists t,
    sendMessage w message uid now
    = (set_messages (messages w ++ [mkMessage uid u message now]) w, Some t) /\
    reply_sender t <> u /\
    forall w' r uid' now',
      last (messages (botReply w' t r uid' now'))
      = Some (mkMessage uid' (reply_sender t) (default "" (botResponses !! r)) now').
Proof.
  intros Hoff Hu Hne Hopp Hseats. unfold sendMessage. rewrite Hoff, Hu. simpl.
  destruct (String.eqb_spec u ""); [done |].
  eexists. split; [reflexivity |]. split.
  - unfold reply_sender. simpl. destruct (gameState w) as [gs |]; [| congruence].
    specialize (Hseats gs eq_refl). unfold or_Opponent.
    destruct (decide (playerX (players gs) = Some u)) as [Ex | Ex].
    + destruct (playerO (players gs)) as [s |]; [| congruence].
      destruct (String.eqb_spec s ""); [congruence |].
      intros ->. by apply Hseats.
    + destruct (playerX (players gs)) as [s |]; [| congruence].
      destruct (String.eqb_spec s ""); congruence.
  - intros w' r uid' now'. unfold botReply. simpl. apply last_snoc.
Qed.

Lemma reply_is_not_from_user_witness :
  exists t,
    (sendMessage (set_username (Some "ann") sample_world) "hi" "id-1" 7).2 = Some t /\
    reply_sender t = "bob".
Proof.
  destruct (reply_is_not_from_user (set_username (Some "ann") sample_world)
              "ann" "hi" "id-1" 7 eq_refl eq_refl)
    as (t & E & _ & _).
  - discriminate.
  - discriminate.
  - intros gs [= <-] [_ H]. discriminate H.
  - exists t. rewrite E. split; [reflexivity |].
    injection E as <-. reflexivity.
Defined.

(** ** The board component *)

(** X13: in offline mode a click on a cell of the board either changes
    nothing or places the user's own mark: it goes through only when the
    cell is not occupied, the game is not over and the turn is that of the
    mark the board takes the user to play (X when the user's name is player
    X's, O otherwise); then exactly that cell changes. *)
Theorem cellClick_places_own_mark (w : World) (gs : GameState) (index : nat) :
  isOfflineMode w = true ->
  gameState w = Some gs ->
  cellClick w index = w \/
  (truthy (get (board gs) index) = false /\
   gameOver gs = false /\
   currentTurn gs = playerMarker (username w) gs /\
   exists gs',
     gameState (cellClick w index) = Some gs' /\
     forall j, get (board gs') j =
               if decide (j = index)
               then Str (mark_str (playerMarker (username w) gs))
               else get (board gs) j).
Proof.
  intros Hoff Hgs. unfold cellClick. rewrite Hgs.
  destruct (truthy (get (board gs) index)) eqn:Hc; [by left |].
  unfold isPlayerTurn.
  destruct (bool_decide (playerMarker (username w) gs = currentTurn gs)) eqn:Ht;
    [| by left].
  destruct (gameOver gs) eqn:Ho; [by left |]. simpl. right.
  apply bool_decide_eq_true in Ht.
  split; [reflexivity |]. split; [reflexivity |]. split; [done |].
  destruct (offlineMove_accepts gs index Hc Ho) as (gs' & bot & E & Hb & _).
  exists gs'. unfold makeMove. rewrite Hoff, Hgs, E.
  split; [by destruct bot |].
  intros j. rewrite Hb, get_js_set, Ht. reflexivity.
Qed.

Lemma cellClick_places_own_mark_witness :
  cellClick (set_gameState (Some scenario_state) sample_world) 2
  = set_gameState (Some scenario_state) sample_world.
Proof.
  destruct (cellClick_places_own_mark
              (set_gameState (Some scenario_state) sample_world)
              scenario_state 2 eq_refl eq_refl) as [H | (_ & _ & Ht & _)];
    [exact H | discriminate Ht].
Defined.

(** The board lets no click through while it is X's turn and the user is
    not player X. *)
Lemma cellClick_waits (w : World) (gs : GameState) (index : nat) :
  gameState w = Some gs ->
  currentTurn gs = MarkX ->
  username w <> playerX (players gs) ->
  cellClick w index = w.
Proof.
  intros Hgs Ht Hne. unfold cellClick, isPlayerTurn, playerMarker.
  rewrite Hgs, Ht. rewrite decide_False by exact Hne.
  rewrite bool_decide_eq_false_2 by discriminate.
  by rewrite andb_false_r.
Qed.

(** X14: a user who joins a room in offline mode is seated as O while X, the
    room's first occupant, is to move and no bot is scheduled: unless the
    user carries that occupant's name, the board accepts no click on any
    cell, before and after a restart. *)
Theorem joiner_cannot_move (w : World) (r : Room) (id uid : string) (now : nat)
    (u : string) :
  isOfflineMode w = true ->
  username w = Some u ->
  find_room id (rooms w) = Some r ->
  length (room_players r) < 2 ->
  head (room_players r) <> Some u ->
  let w1 := (joinRoom w id uid now).1 in
  botTimers w1 = botTimers w /\
  (forall index, cellClick w1 index = w1) /\
  (forall uid' now' index,
     cellClick (restartGame w1 uid' now') index = restartGame w1 uid' now').
Proof.
  intros Hoff Hu Hr Hlt Hne. simpl.
  rewrite (joinRoom_joins w id uid now r Hoff Hr Hlt). simpl.
  split; [reflexivity |]. split.
  - intros index. eapply cellClick_waits; [reflexivity | reflexivity |].
    simpl. congruence.
  - intros uid' now' index. unfold restartGame. simpl. rewrite Hoff. simpl.
    eapply cellClick_waits; [reflexivity | reflexivity |]. simpl. congruence.
Qed.

Lemma joiner_cannot_move_witness :
  cellClick (joinRoom sample_world "demo-room-1" "id-1" 7).1 4
  = (joinRoom sample_world "demo-room-1" "id-1" 7).1.
Proof.
  destruct (joiner_cannot_move sample_world
              (mkRoom "demo-room-1" "Public Game Room" ["Player1"] 0 false)
              "demo-room-1" "id-1" 7 "bob" eq_refl eq_refl eq_refl)
    as (_ & H & _); [simpl; lia | discriminate | exact (H 4)].
Defined.

(** ** The bot's delayed answer *)

Lemma emptyCells_lookup (b : list cell) (r j : nat) :
  emptyCells b !! r = Some j -> get b j = Null.
Proof.
  intros H. apply list_elem_of_lookup_2 in H. unfold emptyCells in H.
  apply list_elem_of_fmap in H as ([i c] & -> & H).
  apply list_elem_of_filter in H as [Hc H]. simpl in Hc. subst c.
  apply list_elem_of_lookup_1 in H as [k Hk].
  rewrite list_lookup_imap in Hk.
  destruct (b !! k) as [c |] eqn:E; simpl in Hk; [| discriminate].
  injection Hk as <- ->. simpl. by apply get_lookup.
Qed.

(** X15: the bot's answer is computed by the [makeMove] of the render that
    set its timer, that is from the game state before the user's move.  When
    a move of the user schedules the bot and the timer fires, the state
    becomes the board as it was before the user's move plus the mover's mark
    on an empty cell the bot picked: that cell is not the user's, the user's
    own cell reads as it did before the move, and the same stale state is
    kept for the next timer. *)
Theorem bot_answers_from_stale_state (w : World) (gs gs1 : GameState)
    (index r j : nat) (nb : list cell) :
  isOfflineMode w = true ->
  gameState w = Some gs ->
  offlineMove gs index = Some (gs1, Some nb) ->
  emptyCells nb !! r = Some j ->
  let w1 := makeMove w index in
  let k := length (botTimers w) in
  botTimers w1 = (botTimers w ++ [mkBotTimer gs nb])%list /\
  j <> index /\
  exists gs2,
    gameState (botFire w1 k r) = Some gs2 /\
    board gs2 = js_set (board gs) j (Str (mark_str (currentTurn gs))) /\
    get (board gs2) index = get (board gs) index /\
    truthy (get (board gs2) index) = false /\
    currentTurn gs2 = other (currentTurn gs) /\
    Forall (fun t => seen t = gs) (drop k (botTimers (botFire w1 k r))).
Proof.
  intros Hoff Hgs E Hr. simpl.
  destruct (offlineMove_guard _ _ _ _ E) as (Hc & Ho & Hb & _).
  assert (Hnb : nb = board gs1).
  { revert E. unfold offlineMove. rewrite Hc, Ho. simpl.
    destruct (_ && _ && _ && _); [| discriminate]. by intros [= <- <-]. }
  pose proof (emptyCells_lookup nb r j Hr) as Hj.
  rewrite Hnb, Hb, get_js_set in Hj.
  assert (Hne : j <> index).
  { intros ->. rewrite decide_True in Hj by done. discriminate. }
  rewrite decide_False in Hj by exact Hne.
  assert (Hcj : truthy (get (board gs) j) = false) by (by rewrite Hj).
  destruct (offlineMove_accepts gs j Hcj Ho) as (gs2 & bot & E2 & Hb2 & Ht2 & _).
  assert (Hw1 : makeMove w index
                = set_botTimers (botTimers w ++ [mkBotTimer gs nb])
                    (set_gameState (Some gs1) w)).
  { unfold makeMove. by rewrite Hoff, Hgs, E. }
  rewrite Hw1. simpl. split; [reflexivity |]. split; [exact Hne |].
  exists gs2. unfold botFire. simpl.
  rewrite list_lookup_middle by reflexivity. simpl. rewrite Hr, E2.
  assert (Hdel : delete (length (botTimers w))
                    (botTimers w ++ [mkBotTimer gs nb])%list
                 = botTimers w).
  { rewrite delete_middle. by rewrite app_nil_r. }
  split; [by destruct bot |]. split; [exact Hb2 |].
  split; [rewrite Hb2, get_js_set; by rewrite decide_False |].
  split; [rewrite Hb2, get_js_set; by rewrite decide_False |].
  split; [exact Ht2 |].
  destruct bot as [nb2 |]; simpl; rewrite Hdel.
  - rewrite drop_app_length. by repeat constructor.
  - rewrite drop_all. constructor.
Qed.

Lemma bot_answers_from_stale_state_witness :
  exists gs2,
    gameState (botFire (makeMove solo_world 4) 0 0) = Some gs2 /\
    board gs2 = [Str "X"; Null; Null; Null; Null; Null; Null; Null; Null].
Proof.
  destruct (bot_answers_from_stale_state solo_world
              (startGame (mkPlayers (Some "ann") None))
              _ 4 0 0 _ eq_refl eq_refl eq_refl eq_refl)
    as (_ & _ & gs2 & Hg & Hb & _).
  exists gs2. split; [exact Hg | exact Hb].
Defined.

(** ** More on the connection manager *)

(** X16: [connect] on a service whose socket is connected is idempotent on
    the connection: it makes no socket and no attempt, keeps the current
    socket and the counter, only records the name (in the service and in
    local storage) and returns a promise already resolved to true. *)
Theorem connect_when_connected (io : nat -> bool) (u : string) (m : Machine) :
  socket_connected m = true ->
  let m' := connect io u m in
  sockets m' = sockets m /\ attempts m' = attempts m /\
  socket m' = socket m /\ reconnectAttempts m' = reconnectAttempts m /\
  socket_connected m' = true /\
  svc_username m' = Some u /\ localStorage m' = Some u /\
  calls m' = (calls m ++ [mkCall (Resolved true) NoTimer])%list /\
  outcome_of (length (calls m)) m' = Resolved true.
Proof.
  intros H. simpl. unfold connect.
  change (socket_connected (set_localStorage (Some u) (set_svc_username (Some u) m)))
    with (socket_connected m).
  rewrite H. simpl. repeat split; try exact H.
  unfold outcome_of. simpl. rewrite call_outcome_snoc. by rewrite decide_True.
Qed.

Lemma connect_when_connected_witness :
  socket_connected (run io_never_throws init_machine [Connect "ann"; OnConnect 0])
  = true /\
  sockets (run io_never_throws init_machine [Connect "ann"; OnConnect 0; Connect "ann"])
  = sockets (run io_never_throws init_machine [Connect "ann"; OnConnect 0]).
Proof.
  split; [reflexivity |].
  exact (proj1 (connect_when_connected io_never_throws "ann"
                  (run io_never_throws init_machine [Connect "ann"; OnConnect 0])
                  eq_refl)).
Defined.







(** X19: after [disconnect()] the service holds no socket and is not
    connected, and every action is without effect; a second [disconnect()]
    changes nothing.  If there was a socket it is closed and the service's
    name is cleared; if there was none, nothing changes at all, the name
    included.  The stored name and the counter of fallback attempts are left
    as they were in both cases. *)
Theorem disconnect_silences (m : Machine) (roomName roomId message : string)
    (isPriv : bool) (index : nat) :
  let m' := disconnect m in
  socket m' = None /\ socket_connected m' = false /\
  (forall s k, socket m = Some s -> sockets m !! s = Some k ->
               svc_username m' = None /\
               sockets m' !! s = Some (mkSock (url k) false true (owner k))) /\
  (socket m = None -> m' = m) /\
  localStorage m' = localStorage m /\
  reconnectAttempts m' = reconnectAttempts m /\
  disconnect m' = m' /\
  (svc_makeMove index m').1 = m' /\ (svc_sendMessage message m').1 = m' /\
  (svc_restartGame m').1 = m' /\ (svc_leaveRoom m').1 = m' /\
  (svc_createRoom roomName isPriv m').1 = m' /\
  (svc_joinRoom roomId m').1 = m' /\ (svc_joinRandomGame m').1 = m'.
Proof.
  simpl.
  assert (Hnone : socket (disconnect m) = None).
  { unfold disconnect. destruct (socket m) eqn:E; [reflexivity | exact E]. }
  split; [exact Hnone |].
  split; [unfold socket_connected; by rewrite Hnone |].
  split.
  { intros s k Hs Hk. unfold disconnect, close_socket. rewrite Hs. simpl.
    split; [reflexivity |]. by rewrite list_lookup_alter_eq, Hk. }
  split; [intros Hs; unfold disconnect; by rewrite Hs |].
  split; [unfold disconnect; by destruct (socket m) |].
  split; [unfold disconnect; by destruct (socket m) |].
  split; [unfold disconnect at 1; by rewrite Hnone |].
  unfold svc_makeMove, svc_sendMessage, svc_restartGame, svc_leaveRoom,
    svc_createRoom, svc_joinRoom, svc_joinRandomGame.
  rewrite Hnone. by repeat split.
Qed.

(** X20: with a socket, whether or not it is connected yet, each action
    hands exactly one message to that socket and changes nothing else:
    [leaveRoom], [makeMove] and [restartGame] return at once, [createRoom],
    [joinRoom] and [joinRandomGame] return a promise that waits for the
    server; [sendMessage] sends the text under the service's name, and sends
    nothing when that name is null or empty. *)
Theorem actions_emit_once (m : Machine) (s : nat) (roomName roomId message : string)
    (isPriv : bool) (index : nat) :
  socket m = Some s ->
  svc_leaveRoom m = (set_emitted (emitted m ++ [(s, EmLeaveRoom)]) m, RetVoid) /\
  svc_makeMove index m
  = (set_emitted (emitted m ++ [(s, EmMove index)]) m, RetVoid) /\
  svc_restartGame m
  = (set_emitted (emitted m ++ [(s, EmRestartGame)]) m, RetVoid) /\
  svc_createRoom roomName isPriv m
  = (set_emitted (emitted m ++ [(s, EmCreateRoom roomName isPriv)]) m, RetPending) /\
  svc_joinRoom roomId m
  = (set_emitted (emitted m ++ [(s, EmJoinRoom roomId)]) m, RetPending) /\
  svc_joinRandomGame m
  = (set_emitted (emitted m ++ [(s, EmJoinRandom)]) m, RetPending) /\
  (forall u, svc_username m = Some u -> u <> "" ->
             svc_sendMessage message m
             = (set_emitted (emitted m ++ [(s, EmSendMessage message u)]) m, RetVoid)) /\
  (truthy_name (svc_username m) = false ->
   svc_sendMessage message m = (m, RetVoid)).
Proof.
  intros Hs.
  unfold svc_leaveRoom, svc_makeMove, svc_restartGame, svc_createRoom,
    svc_joinRoom, svc_joinRandomGame, svc_sendMessage, emit.
  rewrite Hs. repeat split.
  - intros u Hu Hne. rewrite Hu. by destruct (String.eqb_spec u "").
  - unfold truthy_name. destruct (svc_username m) as [u |]; [| done].
    by destruct (String.eqb u "").
Qed.

Lemma actions_emit_once_witness :
  svc_sendMessage "hi" (run io_never_throws init_machine [Connect "ann"])
  = (set_emitted [(0, EmSendMessage "hi" "ann")]
       (run io_never_throws init_machine [Connect "ann"]), RetVoid).
Proof.
  destruct (actions_emit_once (run io_never_throws init_machine [Connect "ann"])
              0 "r" "r" "hi" false 0 eq_refl) as (_ & _ & _ & _ & _ & _ & H & _).
  apply (H "ann"); [reflexivity | discriminate].
Defined.

(** ** From a failed login to a game that cannot be played *)





(** ** The login form *)

Lemma trimStart_head (s : JsString) (c : N) :
  head (trimStart s) = Some c -> is_js_space c = false.
Proof.
  induction s as [| d s IH]; simpl; [discriminate |].
  destruct (is_js_space d) eqn:E; [exact IH |]. simpl. by intros [= <-].
Qed.

Lemma trimStart_fixed (s : JsString) :
  (forall c, head s = Some c -> is_js_space c = false) -> trimStart s = s.
Proof.
  destruct s as [| d s]; [reflexivity |]. simpl. intros H.
  by rewrite (H d eq_refl).
Qed.

Lemma trimStart_suffix (s : JsString) : trimStart s `suffix_of` s.
Proof.
  induction s as [| d s IH]; simpl; [done |].
  destruct (is_js_space d); [by apply suffix_cons_r | done].
Qed.

Lemma trimStart_last (s : JsString) (c : N) :
  (forall d, last s = Some d -> is_js_space d = false) ->
  last (trimStart s) = Some c -> is_js_space c = false.
Proof.
  intros H Hl. apply H. destruct (trimStart_suffix s) as [pre E].
  rewrite E. destruct (trimStart s) as [| d t] eqn:Et; [discriminate |].
  rewrite last_app. by rewrite Hl.
Qed.

Lemma trim_trimmed (s : JsString) : trimmed (trim s).
Proof.
  unfold trim, trimEnd. split.
  - intros c Hc. rewrite head_reverse in Hc.
    eapply trimStart_last; [| exact Hc].
    intros d Hd. rewrite last_reverse in Hd. by eapply trimStart_head.
  - intros c Hc. rewrite last_reverse in Hc. by eapply trimStart_head.
Qed.

Lemma trim_fixed (s : JsString) : trimmed s -> trim s = s.
Proof.
  intros [Hh Hl]. unfold trim, trimEnd. rewrite (trimStart_fixed s Hh).
  rewrite trimStart_fixed; [apply reverse_involutive |].
  intros c Hc. rewrite head_reverse in Hc. by apply Hl.
Qed.

Lemma length_trim (s : JsString) : length (trim s) <= length s.
Proof.
  unfold trim, trimEnd. rewrite length_reverse.
  etrans; [apply suffix_length, trimStart_suffix |].
  rewrite length_reverse. apply suffix_length, trimStart_suffix.
Qed.

(** X23: the login form calls [onSubmit] exactly when the text, white space
    stripped from both ends, has 3 to 15 code units, 15 included, and then
    with that stripped text, which starts and ends with no white space;
    otherwise it only sets an error.  A name it let through is let through
    unchanged when submitted again. *)
Theorem handleSubmit_accepts (u : JsString) :
  ((exists v, handleSubmit u = OnSubmit v) <->
   3 <= length (trim u) <= 15) /\
  (forall v, handleSubmit u = OnSubmit v ->
             v = trim u /\ trimmed v /\ length v <= length u /\
             handleSubmit v = OnSubmit v).
Proof.
  assert (H : forall v, handleSubmit u = OnSubmit v ->
                        v = trim u /\ 3 <= length v <= 15).
  { unfold handleSubmit. intros v.
    repeat case_bool_decide; try discriminate. intros [= <-]. split; [done | lia]. }
  split.
  - split.
    + intros [v Hv]. destruct (H v Hv) as [-> ?]. done.
    + intros Hlen. exists (trim u). unfold handleSubmit.
      rewrite !bool_decide_eq_false_2 by lia. reflexivity.
  - intros v Hv. destruct (H v Hv) as [-> Hlen].
    split; [reflexivity |]. split; [apply trim_trimmed |].
    split; [apply length_trim |].
    unfold handleSubmit. rewrite (trim_fixed (trim u)) by apply trim_trimmed.
    rewrite !bool_decide_eq_false_2 by lia. reflexivity.
Qed.

(** ** Subscriptions *)

Lemma remove_first_snoc_fresh (x : Listener) (ls : list Listener) :
  x ∉ ls -> remove_first x (ls ++ [x]) = ls.
Proof.
  induction ls as [| y ls IH]; simpl; intros H.
  - by rewrite decide_True.
  - apply not_elem_of_cons in H as [Hne H].
    rewrite decide_False by done. by rewrite IH.
Qed.

Lemma remove_first_absent (x : Listener) (ls : list Listener) :
  x ∉ ls -> remove_first x ls = ls.
Proof.
  induction ls as [| y ls IH]; simpl; intros H; [reflexivity |].
  apply not_elem_of_cons in H as [Hne H].
  rewrite decide_False by done. by rewrite IH.
Qed.

Lemma remove_first_perm (x : Listener) (ls : list Listener) :
  x ∈ ls -> x :: remove_first x ls ≡ₚ ls.
Proof.
  induction ls as [| y ls IH]; simpl; intros H; [by apply elem_of_nil in H |].
  destruct (decide (x = y)) as [-> | Hne]; [reflexivity |].
  apply elem_of_cons in H as [-> | H]; [done |].
  rewrite Permutation_swap. by rewrite IH.
Qed.

(** X24: subscribing without a socket registers nothing and returns no
    handle.  With a socket the callback is registered on it, and the handle
    takes one registration of it off the socket the service holds when the
    handle is called: the listeners are as before (up to order) if that is
    still the same socket, but if the service has moved to another socket, or
    holds none, the callback stays registered on the old one. *)
Theorem subscription_round_trip (ch : Channel) (cb : nat) (m m' : Machine)
    (ls : list Listener) :
  (socket m = None -> subscribe ch cb m ls = (ls, false)) /\
  (forall s, socket m = Some s ->
     subscribe ch cb m ls = ((ls ++ [(s, ch, cb)])%list, true) /\
     (socket m' = Some s ->
      unsubscribe ch cb m' (subscribe ch cb m ls).1 ≡ₚ ls /\
      ((s, ch, cb) ∉ ls -> unsubscribe ch cb m' (subscribe ch cb m ls).1 = ls)) /\
     (socket m' = None ->
      unsubscribe ch cb m' (subscribe ch cb m ls).1 = (ls ++ [(s, ch, cb)])%list) /\
     (forall s', socket m' = Some s' -> s' <> s -> (s', ch, cb) ∉ ls ->
        unsubscribe ch cb m' (subscribe ch cb m ls).1 = (ls ++ [(s, ch, cb)])%list)).
Proof.
  unfold subscribe, unsubscribe. split; [by intros -> |].
  intros s ->. simpl. split; [reflexivity |]. split; [| split].
  - intros ->. split; [| apply remove_first_snoc_fresh].
    apply (Permutation_cons_inv (a := (s, ch, cb))).
    rewrite remove_first_perm.
    + symmetry. apply Permutation_cons_append.
    + apply elem_of_app. right. apply list_elem_of_here.
  - by intros ->.
  - intros s' -> Hne Hfresh. apply remove_first_absent.
    intros H. apply elem_of_app in H as [H | H]; [done |].
    apply list_elem_of_singleton in H. congruence.
Qed.

(** ** The service that rotates over three servers *)

Module RotationFacts.
Import Rotation.

(** The state in which [tryConnect] calls [io]: index set, previous socket
    cleaned up, attempt logged. *)
Lemma tryConnect_go_eq (io : nat -> bool) (f i : nat) (chain : list nat)
    (m : Machine) :
  tryConnect_go io f i chain m
  = let m0 := set_currentServerIndex i m in
    let q := length (calls m0) in
    let m1 := match socket m0 with
              | Some s => set_sockets (alter cleanup_sock s (sockets m0)) m0
              | None => m0
              end in
    let n := length (tried m1) in
    let m2 := set_tried (tried m1 ++ [(q, i)]) m1 in
    if io n then
      let m3 := set_reconnectAttempts (S (reconnectAttempts m2))
                  (set_calls (calls m2 ++ [mkCall Pending NoTimer chain]) m2) in
      if decide (ceiling <= reconnectAttempts m3) then
        settle_all (q :: chain) (Resolved false) m3
      else
        match f with
        | 0 => m3
        | S f' =>
            tryConnect_go io f' ((currentServerIndex m3 + 1) mod length SERVER_OPTIONS)
              (q :: chain) m3
        end
    else
      set_calls (calls m2 ++ [mkCall Pending Armed chain])
        (set_socket (Some (length (sockets m2)))
           (set_sockets (sockets m2 ++ [mkSock i false false true q]) m2)).
Proof. destruct f; reflexivity. Qed.

Lemma prepared_attempts (i : nat) (m : Machine) :
  reconnectAttempts
    match socket (set_currentServerIndex i m) with
    | Some s => set_sockets (alter cleanup_sock s (sockets (set_currentServerIndex i m)))
                  (set_currentServerIndex i m)
    | None => set_currentServerIndex i m
    end
  = reconnectAttempts m.
Proof. simpl. by destruct (socket m). Qed.

(** The fuel of [tryConnect] is never used up. *)
Lemma tryConnect_go_more_fuel (io : nat -> bool) (f : nat) :
  forall (i : nat) (chain : list nat) (m : Machine),
    ceiling - 1 - reconnectAttempts m <= f ->
    tryConnect_go io f i chain m = tryConnect_go io (S f) i chain m.
Proof.
  induction f as [| f IH]; intros i chain m Hf;
    rewrite (tryConnect_go_eq io (S _)), (tryConnect_go_eq io _ i); cbv zeta;
    destruct (io _); try reflexivity;
    case_decide as Hc; try reflexivity;
    cbn [reconnectAttempts set_reconnectAttempts set_calls set_tried] in Hc;
    rewrite prepared_attempts in Hc.
  - lia.
  - apply IH. cbn [reconnectAttempts set_reconnectAttempts set_calls set_tried].
    rewrite prepared_attempts. lia.
Qed.

Lemma tryConnect_fuel_enough (io : nat -> bool) (f i : nat) (chain : list nat)
    (m : Machine) :
  ceiling <= f -> tryConnect_go io f i chain m = tryConnect io i chain m.
Proof.
  unfold tryConnect. induction 1 as [| f Hle IH]; [reflexivity |].
  rewrite <- IH. symmetry. apply tryConnect_go_more_fuel. lia.
Qed.


Section NoThrow.

Variable io : nat -> bool.
Hypothesis io_ok : forall n, io n = false.

Lemma tryConnect_no_throw (i : nat) (chain : list nat) (m : Machine) :
  let m' := tryConnect io i chain m in
  reconnectAttempts m' = reconnectAttempts m /\
  currentServerIndex m' = i /\
  socket m' = Some (length (sockets m)) /\
  sockets m' !! length (sockets m)
  = Some (mkSock i false false true (length (calls m))) /\
  calls m' = (calls m ++ [mkCall Pending Armed chain])%list /\
  tried m' = (tried m ++ [(length (calls m), i)])%list /\
  username m' = username m /\ localStorage m' = localStorage m.
Proof using io_ok.
  unfold tryConnect. rewrite tryConnect_go_eq. cbv zeta. rewrite io_ok.
  destruct (socket (set_currentServerIndex i m)) eqn:E; simpl;
    rewrite ?length_alter; repeat split;
    by rewrite list_lookup_middle by (by rewrite ?length_alter).
Qed.

Lemma tryNextServer_rotates (chain : list nat) (m : Machine) :
  S (reconnectAttempts m) < 9 ->
  let m' := tryNextServer io chain m in
  reconnectAttempts m' = S (reconnectAttempts m) /\
  currentServerIndex m' = (currentServerIndex m + 1) mod 3 /\
  socket m' = Some (length (sockets m)) /\
  sockets m' !! length (sockets m)
  = Some (mkSock ((currentServerIndex m + 1) mod 3) false false true
                 (length (calls m))) /\
  calls m' = (calls m ++ [mkCall Pending Armed chain])%list /\
  tried m' = (tried m ++ [(length (calls m), (currentServerIndex m + 1) mod 3)])%list /\
  username m' = username m /\ localStorage m' = localStorage m.
Proof using io_ok.
  intros Hlt. unfold tryNextServer. cbv zeta.
  rewrite decide_False by (change ceiling with 9; simpl; lia).
  apply (tryConnect_no_throw _ chain
           (set_reconnectAttempts (S (reconnectAttempts m)) m)).
Qed.

Lemma tryNextServer_gives_up (chain : list nat) (m : Machine) :
  9 <= S (reconnectAttempts m) ->
  tryNextServer io chain m
  = settle_all chain (Resolved false)
      (set_reconnectAttempts (S (reconnectAttempts m)) m).
Proof.
  intros Hge. unfold tryNextServer. cbv zeta.
  by rewrite decide_True by (change ceiling with 9; simpl; lia).
Qed.

End NoThrow.

Lemma settle_call_twice (v : Settled) (c : Call) :
  settle_call v (settle_call v c) = settle_call v c.
Proof.
  unfold settle_call. destruct (outcome c) eqn:E; simpl; rewrite ?E; try done.
  by destruct v.
Qed.

Lemma settle_chain_lookup (chain : list nat) (v : Settled) (cs : list Call)
    (p : nat) :
  foldr (fun q cs => alter (settle_call v) q cs) cs chain !! p
  = if decide (p ∈ chain) then settle_call v <$> cs !! p else cs !! p.
Proof.
  induction chain as [| q chain IH]; simpl.
  - destruct (decide (p ∈ [])) as [H |]; [by apply elem_of_nil in H | reflexivity].
  - rewrite list_lookup_alter. destruct (decide (q = p)) as [-> | Hne]; rewrite IH.
    + rewrite (decide_True (P := p ∈ p :: chain)) by apply list_elem_of_here.
      destruct (decide (p ∈ chain)); [| reflexivity].
      destruct (cs !! p); simpl; [| reflexivity]. by rewrite settle_call_twice.
    + destruct (decide (p ∈ chain)) as [Hin | Hout].
      * rewrite decide_True; [reflexivity | by apply elem_of_cons; right].
      * rewrite decide_False; [reflexivity |].
        intros H. apply elem_of_cons in H as [-> | H]; done.
Qed.

Section AllDown.

Variable io : nat -> bool.
Hypothesis io_ok : forall n, io n = false.

Lemma rotate_from (p a i : nat) (chain : list nat) (m : Machine) :
  reconnectAttempts m = a ->
  currentServerIndex m = i ->
  (exists cp, calls m !! p = Some cp /\ outcome cp = Pending) ->
  p ∈ chain ->
  S a < 9 ->
  attempting p (S a) ((i + 1) mod 3) (tryNextServer io chain m) /\
  servers_tried (tryNextServer io chain m)
  = (servers_tried m ++ [(i + 1) mod 3])%list.
Proof using io_ok.
  intros Ha Hi (cp & Hcp & Hpend) Hin Hlt.
  destruct (tryNextServer_rotates io io_ok chain m)
    as (Ha' & Hi' & Hs' & Hk' & Hc' & Ht' & _); [lia |].
  rewrite Hi in *. split.
  - split; [lia |]. split; [exact Hi' |]. split.
    + exists cp. split; [| exact Hpend]. rewrite Hc'.
      rewrite lookup_app_l; [exact Hcp | by eapply lookup_lt_Some].
    + exists (length (sockets m)), (length (calls m)), (mkCall Pending Armed chain).
      split; [exact Hs' |]. split; [exact Hk' |].
      split; [rewrite Hc'; by apply list_lookup_middle |].
      split; [reflexivity |]. simpl. by apply elem_of_cons; right.
  - unfold servers_tried. rewrite Ht', fmap_app. reflexivity.
Qed.

Lemma give_up_from (p : nat) (chain : list nat) (m : Machine) :
  8 <= reconnectAttempts m ->
  (exists cp, calls m !! p = Some cp /\ outcome cp = Pending) ->
  p ∈ chain ->
  outcome_of p (tryNextServer io chain m) = Resolved false /\
  reconnectAttempts (tryNextServer io chain m) = S (reconnectAttempts m) /\
  servers_tried (tryNextServer io chain m) = servers_tried m.
Proof.
  intros Ha (cp & Hcp & Hpend) Hin.
  rewrite tryNextServer_gives_up by lia. unfold outcome_of, settle_all. simpl.
  rewrite settle_chain_lookup, decide_True by exact Hin. rewrite Hcp. simpl.
  unfold settle_call. by rewrite Hpend.
Qed.

(** What a failure of the current attempt hands to [tryNextServer]. *)
Lemma fail_current_next (b : bool) (p a i : nat) (m : Machine) :
  attempting p a i m ->
  exists chain m1,
    fail_current io b m = tryNextServer io chain m1 /\
    reconnectAttempts m1 = a /\ currentServerIndex m1 = i /\
    (exists cp, calls m1 !! p = Some cp /\ outcome cp = Pending) /\
    p ∈ chain /\ servers_tried m1 = servers_tried m.
Proof.
  intros (Ha & Hi & (cp & Hcp & Hpend) & s & q & c & Hs & Hk & Hq & Ht & Hin).
  unfold fail_current. rewrite Hs, Hk. simpl. destruct b.
  - (* the timeout of the call fires *)
    unfold on_timeout. rewrite Hq, Ht. simpl. rewrite Hs.
    unfold socket_connected. simpl. rewrite Hs, Hk. simpl.
    eexists _, _. split; [reflexivity |]. simpl.
    split; [exact Ha |]. split; [exact Hi |]. split; [| split; [| reflexivity]].
    + rewrite list_lookup_alter. destruct (decide (q = p)) as [-> |].
      * rewrite Hcp. simpl. eexists. split; [reflexivity | exact Hpend].
      * by exists cp.
    + unfold chain_of. simpl. rewrite list_lookup_alter_eq, Hq. exact Hin.
  - (* the socket reports connect_error *)
    unfold on_connect_error. rewrite Hk. simpl.
    eexists _, _. split; [reflexivity |]. simpl.
    split; [exact Ha |]. split; [exact Hi |]. split; [| split; [| reflexivity]].
    + rewrite list_lookup_alter. destruct (decide (q = p)) as [-> |].
      * rewrite Hcp. simpl. eexists. split; [reflexivity |].
        unfold clear_call. by destruct (timer cp).
      * by exists cp.
    + unfold chain_of. simpl. rewrite list_lookup_alter_eq, Hq. simpl.
      unfold clear_call. rewrite Ht. exact Hin.
Qed.

Lemma connect_starts (u : string) (m : Machine) :
  socket_connected m = false ->
  attempting (length (calls m)) (reconnectAttempts m) 0 (connect io u m) /\
  servers_tried (connect io u m) = (servers_tried m ++ [0])%list.
Proof using io_ok.
  intros Hc. unfold connect.
  change (socket_connected (set_localStorage (Some u) (set_username (Some u) m)))
    with (socket_connected m).
  rewrite Hc.
  destruct (tryConnect_no_throw io io_ok 0 []
              (set_localStorage (Some u) (set_username (Some u) m)))
    as (Ha' & Hi' & Hs' & Hk' & Hc' & Ht' & _).
  simpl in *. split.
  - split; [exact Ha' |]. split; [exact Hi' |]. split.
    + eexists. rewrite Hc'. split; [by apply list_lookup_middle | reflexivity].
    + eexists _, _, _. split; [exact Hs' |]. split; [exact Hk' |].
      split; [rewrite Hc'; by apply list_lookup_middle |].
      split; [reflexivity |]. simpl. apply list_elem_of_here.
  - unfold servers_tried. rewrite Ht', fmap_app. reflexivity.
Qed.

Lemma failures_rotate (u : string) (m : Machine) (bs : list bool) :
  reconnectAttempts m = 0 -> socket_connected m = false ->
  length bs < 9 ->
  attempting (length (calls m)) (length bs) (length bs mod 3)
             (foldl (fun m b => fail_current io b m) (connect io u m) bs) /\
  servers_tried (foldl (fun m b => fail_current io b m) (connect io u m) bs)
  = (servers_tried m ++ ((fun i => i mod 3) <$> seq 0 (S (length bs))))%list.
Proof using io_ok.
  intros Ha Hc. induction bs as [| b bs IH] using rev_ind; intros Hlen.
  - destruct (connect_starts u m Hc) as [H1 H2]. rewrite Ha in H1. by split.
  - rewrite length_app in Hlen. change (length [b]) with 1 in Hlen.
    destruct IH as [Htry Hsrv]; [lia |].
    rewrite foldl_snoc, length_app. change (length [b]) with 1.
    replace (length bs + 1) with (S (length bs)) by lia.
    destruct (fail_current_next b _ _ _ _ Htry)
      as (chain & m1 & -> & Ha1 & Hi1 & Hp1 & Hin1 & Hs1).
    destruct (rotate_from _ _ _ chain m1 Ha1 Hi1 Hp1 Hin1) as [Htry' Hsrv']; [lia |].
    assert (Hmod : (length bs mod 3 + 1) mod 3 = S (length bs) mod 3).
    { rewrite Nat.Div0.add_mod_idemp_l. f_equal. lia. }
    rewrite Hmod in *. split; [exact Htry' |].
    rewrite Hsrv', Hs1, Hsrv, <- app_assoc. f_equal.
    rewrite (seq_S (S (length bs))), fmap_app. reflexivity.
Qed.

Lemma passes_take (k : nat) :
  k <= 9 -> (fun i => i mod 3) <$> seq 0 (min (S k) 9) = take (S k) passes.
Proof.
  intros H. do 10 (destruct k as [| k]; [reflexivity |]). lia.
Qed.

(** X25: with all three servers down, and the counter at 0 when [connect]
    is called, the service makes three passes over the servers in their
    order, however each attempt fails (by ["connect_error"] or by its
    timeout): after [k] failures, [k] below 9, the promise is still pending
    and the attempt on server [k mod 3] is under way; the ninth failure
    resolves the promise to false, with no further attempt. *)
Theorem three_passes_then_false (u : string) (m : Machine) (bs : list bool) :
  reconnectAttempts m = 0 ->
  socket_connected m = false ->
  length bs <= 9 ->
  let p := length (calls m) in
  let m' := foldl (fun m b => fail_current io b m) (connect io u m) bs in
  reconnectAttempts m' = length bs /\
  servers_tried m' = (servers_tried m ++ take (S (length bs)) passes)%list /\
  outcome_of p m' = (if decide (length bs < 9) then Pending else Resolved false) /\
  (length bs < 9 -> attempting p (length bs) (length bs mod 3) m').
Proof using io_ok.
  intros Ha Hc Hlen. cbv zeta.
  destruct (decide (length bs < 9)) as [Hlt | Hge].
  - destruct (failures_rotate u m bs Ha Hc Hlt) as [Htry Hsrv].
    split; [apply Htry |]. split.
    + rewrite Hsrv, <- passes_take by lia. by rewrite Nat.min_l by lia.
    + split; [| done]. destruct Htry as (_ & _ & (cp & Hcp & Hpend) & _).
      unfold outcome_of. by rewrite Hcp.
  - destruct bs as [| b bs _] using rev_ind; [simpl in Hge; lia |].
    rewrite length_app in *. change (length [b]) with 1 in *.
    destruct (failures_rotate u m bs Ha Hc) as [Htry Hsrv]; [lia |].
    rewrite foldl_snoc.
    destruct (fail_current_next b _ _ _ _ Htry)
      as (chain & m1 & -> & Ha1 & Hi1 & Hp1 & Hin1 & Hs1).
    destruct (give_up_from (length (calls m)) chain m1)
      as (Ho & Ha' & Hs'); [lia | done | done |].
    split; [lia |]. split; [| split; [exact Ho | lia]].
    rewrite Hs', Hs1, Hsrv. f_equal.
    assert (length bs = 8) as -> by lia. reflexivity.
Qed.

(** X26: when, after fewer than nine failures, the attempt under way
    connects, the promise of [connect] resolves to true, the counter returns
    to 0 and the service is connected to server [k mod 3], [k] being the
    number of failures. *)
Theorem failover_then_success (u : string) (m : Machine) (bs : list bool) :
  reconnectAttempts m = 0 ->
  socket_connected m = false ->
  length bs < 9 ->
  let p := length (calls m) in
  let m' := foldl (fun m b => fail_current io b m) (connect io u m) bs in
  exists s k,
    socket m' = Some s /\
    sockets (step io m' (OnConnect s)) !! s = Some k /\
    server k = length bs mod 3 /\ connected k = true /\
    socket_connected (step io m' (OnConnect s)) = true /\
    outcome_of p (step io m' (OnConnect s)) = Resolved true /\
    reconnectAttempts (step io m' (OnConnect s)) = 0 /\
    servers_tried (step io m' (OnConnect s))
    = (servers_tried m ++ take (S (length bs)) passes)%list.
Proof using io_ok.
  intros Ha Hc Hlt. cbv zeta.
  destruct (failures_rotate u m bs Ha Hc Hlt) as [Htry Hsrv].
  rewrite <- (Nat.min_l (S (length bs)) 9), passes_take in Hsrv by lia.
  remember (take (S (length bs)) passes) as tk eqn:Etk.
  destruct Htry as (_ & _ & (cp & Hcp & Hpend) & s & q & c & Hs & Hk & Hq & Ht & Hin).
  exists s, (mkSock (length bs mod 3) true false true q).
  split; [exact Hs |]. simpl. unfold on_connect. rewrite Hk. simpl.
  split; [by rewrite list_lookup_alter_eq, Hk |].
  split; [reflexivity |]. split; [reflexivity |].
  split; [unfold socket_connected; simpl; by rewrite Hs, list_lookup_alter_eq, Hk |].
  split; [| split; [reflexivity |]].
  - unfold outcome_of, settle_all, chain_of. simpl.
    rewrite list_lookup_alter_eq, Hq. cbn [fmap option_fmap option_map].
    rewrite settle_chain_lookup.
    rewrite decide_True by (unfold clear_call; by rewrite Ht).
    rewrite list_lookup_alter. destruct (decide (q = length (calls m))) as [-> |].
    + rewrite Hcp. simpl. unfold settle_call, clear_call.
      destruct (timer cp); simpl; by rewrite Hpend.
    + rewrite Hcp. simpl. unfold settle_call. by rewrite Hpend.
  - unfold servers_tried in *. simpl. exact Hsrv.
Qed.

(** X27: the counter is reset only by a connection, not by [disconnect()]:
    when it stands at 8 or more, as after three failed passes, a new
    [connect] tries server 0 only and resolves to false at the first
    failure. *)
Theorem gives_up_at_first_failure (u : string) (m : Machine) (b : bool) :
  8 <= reconnectAttempts m ->
  socket_connected m = false ->
  let p := length (calls m) in
  reconnectAttempts (disconnect m) = reconnectAttempts m /\
  outcome_of p (connect io u m) = Pending /\
  outcome_of p (fail_current io b (connect io u m)) = Resolved false /\
  servers_tried (fail_current io b (connect io u m))
  = (servers_tried m ++ [0])%list.
Proof using io_ok.
  intros Ha Hc. cbv zeta.
  split; [unfold disconnect; by destruct (socket m) |].
  destruct (connect_starts u m Hc) as [Htry Hsrv].
  split.
  - destruct Htry as (_ & _ & (cp & Hcp & Hpend) & _).
    unfold outcome_of. by rewrite Hcp.
  - destruct (fail_current_next b _ _ _ _ Htry)
      as (chain & m1 & -> & Ha1 & Hi1 & Hp1 & Hin1 & Hs1).
    destruct (give_up_from (length (calls m)) chain m1)
      as (Ho & _ & Hs'); [lia | done | done |].
    split; [exact Ho |]. by rewrite Hs', Hs1.
Qed.

End AllDown.

Lemma three_passes_then_false_witness :
  outcome_of 0 (foldl (fun m b => fail_current io_never_throws b m)
                  (connect io_never_throws "ann" init_machine)
                  [false; true; false; false; true; false; false; false; true])
  = Resolved false.
Proof.
  destruct (three_passes_then_false io_never_throws (fun _ => eq_refl) "ann"
              init_machine
              [false; true; false; false; true; false; false; false; true]
              eq_refl eq_refl) as (_ & _ & H & _); [simpl; lia | exact H].
Defined.

Lemma failover_then_success_witness :
  exists s k,
    socket (foldl (fun m b => fail_current io_never_throws b m)
              (connect io_never_throws "ann" init_machine) [false; true]) = Some s /\
    sockets (step io_never_throws
               (foldl (fun m b => fail_current io_never_throws b m)
                  (connect io_never_throws "ann" init_machine) [false; true])
               (OnConnect s)) !! s = Some k /\
    server k = 2.
Proof.
  destruct (failover_then_success io_never_throws (fun _ => eq_refl) "ann"
              init_machine [false; true] eq_refl eq_refl)
    as (s & k & H1 & H2 & H3 & _); [simpl; lia |].
  exists s, k. split; [exact H1 |]. split; [exact H2 | exact H3].
Defined.

Lemma gives_up_at_first_failure_witness :
  outcome_of 9
    (fail_current io_never_throws true
       (connect io_never_throws "ann"
          (disconnect
             (foldl (fun m b => fail_current io_never_throws b m)
                (connect io_never_throws "ann" init_machine)
                (replicate 9 false)))))
  = Resolved false.
Proof.
  destruct (gives_up_at_first_failure io_never_throws (fun _ => eq_refl) "ann"
              (disconnect
                 (foldl (fun m b => fail_current io_never_throws b m)
                    (connect io_never_throws "ann" init_machine)
                    (replicate 9 false))) true)
    as (_ & _ & H & _); [vm_compute; lia | reflexivity | exact H].
Defined.

Lemma none_rejected_alter (f : Call -> Call) (q : nat) (cs : list Call) :
  (forall c, outcome c <> Rejected -> outcome (f c) <> Rejected) ->
  none_rejected cs -> none_rejected (alter f q cs).
Proof.
  intros Hf Hcs. unfold none_rejected in *.
  apply Forall_lookup_2. intros i c Hi.
  rewrite list_lookup_alter in Hi. destruct (decide (q = i)) as [-> |].
  - destruct (cs !! i) as [c0 |] eqn:E; simplify_eq/=.
    apply Hf. by eapply (Forall_lookup_1 _ _ _ _ Hcs).
  - by eapply (Forall_lookup_1 _ _ _ _ Hcs).
Qed.

Lemma none_rejected_snoc (c : Call) (cs : list Call) :
  outcome c <> Rejected -> none_rejected cs -> none_rejected (cs ++ [c]).
Proof.
  intros Hc Hcs. unfold none_rejected. apply Forall_app. split; [done |].
  by apply Forall_singleton.
Qed.

Lemma settle_call_resolved (b : bool) (c : Call) :
  outcome c <> Rejected -> outcome (settle_call (Resolved b) c) <> Rejected.
Proof. unfold settle_call. destruct (outcome c) eqn:E; simpl; congruence. Qed.

Lemma none_rejected_settle_all (chain : list nat) (b : bool) (m : Machine) :
  none_rejected (calls m) ->
  none_rejected (calls (settle_all chain (Resolved b) m)).
Proof.
  intros Hm. unfold settle_all. simpl.
  induction chain as [| q chain IH]; simpl; [done |].
  apply none_rejected_alter; [apply settle_call_resolved | exact IH].
Qed.

Lemma none_rejected_clearTimeout (q : nat) (m : Machine) :
  none_rejected (calls m) -> none_rejected (calls (clearTimeout q m)).
Proof.
  intros Hm. unfold clearTimeout. simpl. apply none_rejected_alter; [| done].
  intros c Hc. unfold clear_call. by destruct (timer c).
Qed.

Section AnyIo.

Variable io : nat -> bool.

Lemma none_rejected_tryConnect_go (fuel i : nat) (chain : list nat) (m : Machine) :
  none_rejected (calls m) ->
  none_rejected (calls (tryConnect_go io fuel i chain m)).
Proof.
  revert i chain m. induction fuel as [| fuel IH]; intros i chain m Hm;
    rewrite tryConnect_go_eq; cbv zeta;
    set (m0 := set_tried _ _);
    assert (Hm0 : none_rejected (calls m0))
      by (subst m0; simpl; by destruct (socket m));
    clearbody m0.
  - destruct (io _).
    + destruct (decide _).
      * apply none_rejected_settle_all. simpl. by apply none_rejected_snoc.
      * simpl. by apply none_rejected_snoc.
    + simpl. by apply none_rejected_snoc.
  - destruct (io _).
    + destruct (decide _).
      * apply none_rejected_settle_all. simpl. by apply none_rejected_snoc.
      * apply IH. simpl. by apply none_rejected_snoc.
    + simpl. by apply none_rejected_snoc.
Qed.

Lemma none_rejected_tryNextServer (chain : list nat) (m : Machine) :
  none_rejected (calls m) -> none_rejected (calls (tryNextServer io chain m)).
Proof.
  intros Hm. unfold tryNextServer. cbv zeta. destruct (decide _).
  - by apply none_rejected_settle_all.
  - by apply none_rejected_tryConnect_go.
Qed.

Lemma none_rejected_step (m : Machine) (e : Event) :
  none_rejected (calls m) -> none_rejected (calls (step io m e)).
Proof.
  intros Hm. destruct e as [u | | s | s | s | q |]; simpl.
  - unfold connect. cbv zeta. destruct (socket_connected _).
    + simpl. by apply none_rejected_snoc.
    + by apply none_rejected_tryConnect_go.
  - unfold disconnect. by destruct (socket m).
  - unfold on_connect. destruct (sockets m !! s) as [k |]; [| done].
    destruct (_ || _); [done |]. cbv zeta.
    apply none_rejected_settle_all. simpl.
    by apply (none_rejected_clearTimeout (call k) m).
  - unfold on_connect_error. destruct (sockets m !! s) as [k |]; [| done].
    destruct (_ || _); [done |]. cbv zeta.
    apply none_rejected_tryNextServer. by apply none_rejected_clearTimeout.
  - unfold on_disconnect. destruct (sockets m !! s) as [k |]; [| done].
    by destruct (_ && _).
  - unfold on_timeout. destruct (calls m !! q) as [c |]; [| done].
    destruct (timer c); try done. cbv zeta.
    assert (none_rejected (calls (set_calls (alter fire_call q (calls m)) m)))
      as Hf by (simpl; by apply none_rejected_alter).
    destruct (socket _); [| done].
    destruct (socket_connected _); [done |].
    by apply none_rejected_tryNextServer.
  - unfold on_reconnect. destruct (reconnects m) as [| n]; [done |]. cbv zeta.
    destruct (truthy_name _); [| done].
    by apply none_rejected_tryConnect_go.
Qed.

(** X28: in the variant that rotates over the server list, no promise of
    [connect] or [tryConnect] is ever rejected, whatever events arrive and
    even when [io] throws: the [catch] of [tryConnect] goes on to the next
    server instead of rejecting. *)
Theorem rotation_never_rejects (m : Machine) (p : nat) :
  reachable io m -> outcome_of p m <> Rejected.
Proof.
  intros Hr.
  assert (none_rejected (calls m)) as Hm.
  { induction Hr as [stored | m e _ IH]; [by apply Forall_nil |].
    by apply none_rejected_step. }
  unfold outcome_of. destruct (calls m !! p) as [c |] eqn:E; [| done].
  by eapply (Forall_lookup_1 _ _ _ _ Hm).
Qed.

End AnyIo.

Lemma rotation_never_rejects_witness :
  outcome_of 0 (run io_always_throws init_machine [Connect "ann"])
  = Resolved false /\
  outcome_of 0 (run io_always_throws init_machine [Connect "ann"]) <> Rejected.
Proof.
  split; [by vm_compute |].
  apply (rotation_never_rejects io_always_throws).
  apply (reach_step io_always_throws init_machine (Connect "ann")).
  apply (reach_init io_always_throws None).
Defined.

(** X29: when the server drops a connected socket, the two-second timer
    makes one new attempt on the server of [currentServerIndex], on a fresh
    socket, the dropped one being closed; if the user logs out before the
    timer fires, it makes no attempt at all. *)
Theorem reconnect_after_drop (io : nat -> bool) (m : Machine) (s : nat) (k : Sock) :
  (forall n, io n = false) ->
  socket m = Some s ->
  sockets m !! s = Some k ->
  listening k = true ->
  connected k = true ->
  truthy_name (username m) = true ->
  reconnects m = 0 ->
  let m1 := run io m [OnDisconnect s; OnReconnect] in
  let m2 := run io m [OnDisconnect s; Disconnect; OnReconnect] in
  servers_tried m1 = (servers_tried m ++ [currentServerIndex m])%list /\
  socket m1 = Some (length (sockets m)) /\
  sockets m1 !! length (sockets m)
  = Some (mkSock (currentServerIndex m) false false true (length (calls m))) /\
  listening <$> sockets m1 !! s = Some false /\
  servers_tried m2 = servers_tried m /\
  socket m2 = None /\
  reconnects m2 = 0.
Proof.
  intros Hio Hs Hk Hl Hc Hu Hr. cbv zeta.
  assert (s < length (sockets m)) as Hlt by (by eapply lookup_lt_Some).
  unfold run. cbn [foldl step]. unfold on_disconnect. rewrite Hk, Hl, Hc.
  cbn [andb]. split; [| split; [| split; [| split]]].
  - unfold on_reconnect. cbn [reconnects set_reconnects set_sockets]. cbv zeta.
    cbn [username set_reconnects set_sockets]. rewrite Hu.
    unfold tryConnect. rewrite tryConnect_go_eq. cbv zeta. rewrite Hio.
    unfold servers_tried. simpl. rewrite Hs. simpl.
    by rewrite fmap_app.
  - unfold on_reconnect. cbn [reconnects set_reconnects set_sockets]. cbv zeta.
    cbn [username set_reconnects set_sockets]. rewrite Hu.
    unfold tryConnect. rewrite tryConnect_go_eq. cbv zeta. rewrite Hio.
    simpl. rewrite Hs. simpl. by rewrite !length_alter.
  - unfold on_reconnect. cbn [reconnects set_reconnects set_sockets]. cbv zeta.
    cbn [username set_reconnects set_sockets]. rewrite Hu.
    unfold tryConnect. rewrite tryConnect_go_eq. cbv zeta. rewrite Hio.
    simpl. rewrite Hs. simpl.
    rewrite lookup_app_r by (by rewrite !length_alter).
    rewrite !length_alter, Nat.sub_diag. reflexivity.
  - unfold on_reconnect. cbn [reconnects set_reconnects set_sockets]. cbv zeta.
    cbn [username set_reconnects set_sockets]. rewrite Hu.
    unfold tryConnect. rewrite tryConnect_go_eq. cbv zeta. rewrite Hio.
    simpl. rewrite Hs. simpl.
    rewrite lookup_app_l by (by rewrite !length_alter).
    by rewrite !list_lookup_alter_eq, Hk.
  - unfold disconnect. cbn [socket set_reconnects set_sockets]. rewrite Hs.
    unfold on_reconnect. simpl. rewrite Hr. done.
Qed.

Lemma reconnect_after_drop_witness :
  let m := run io_never_throws init_machine
             [Connect "ann"; OnConnectError 0; OnConnect 1] in
  socket m = Some 1 /\
  servers_tried (run io_never_throws m [OnDisconnect 1; OnReconnect])
  = (servers_tried m ++ [currentServerIndex m])%list.
Proof.
  intros m. split; [by vm_compute |].
  refine (proj1 (reconnect_after_drop io_never_throws m 1
                   (mkSock 1 true false true 1) (fun _ => eq_refl) _ _ _ _ _ _));
    by vm_compute.
Defined.

End RotationFacts.
